(** * Shotcut filter undo commands: [src/commands/filtercommands.cpp]

    A shallow embedding of the producer lookup ([FindProducerParser],
    [findProducer]) and of the undo commands of namespace [Filter]
    ([AddCommand], [RemoveCommand], [MoveCommand], [DisableCommand],
    [PasteCommand], [UndoParameterCommand]), followed by the properties the
    specification states about them.

    MLT objects are reference counted C++ handles.  An object is modelled
    by its address (a [handle]); what the objects hold (uuid, attached
    filters, properties, disabled flag) lives in the [World], so that two
    handles to one object see the same data.  [LOG_DEBUG]/[LOG_ERROR] lines
    are not modelled. *)

From stdpp Require Import base option numbers list functions gmap strings.

Open Scope Z_scope.

(** ** MLT handles *)

(** The address of an MLT object. *)
Definition handle := positive.

(** [QUuid]: a 128-bit value, compared by equality only; [0] is the null
    uuid [QUuid()]. *)
Definition QUuid := N.
Definition QString := string.

(** [Mlt::Producer] and [Mlt::Service] wrap a pointer that may be null:
    [None] is the invalid handle [Mlt::Producer()]. *)
Definition Producer := option handle.
Definition MltService := option handle.

Definition is_valid (p : option handle) : bool :=
  match p with Some _ => true | None => false end.

(** [mlt_service_type], the kinds [Mlt::Parser] dispatches on. *)
Inductive mlt_service_type :=
| mlt_service_producer_type
| mlt_service_playlist_type
| mlt_service_tractor_type
| mlt_service_multitrack_type
| mlt_service_chain_type
| mlt_service_filter_type
| mlt_service_transition_type
| mlt_service_link_type.

(** The composition graph below a root: each node is an MLT object of some
    kind, with the services it contains in order (the clips of a playlist,
    the multitrack and transitions of a tractor, the tracks of a multitrack,
    the links of a chain).  Attached filters are not part of this tree: they
    are read from the object ([World.filters]). *)
#[warnings="-register-all"]
Inductive Service :=
| mkService (type : mlt_service_type) (get_service : handle) (children : list Service).

Arguments mkService type get_service%_positive children.

Definition service_type (s : Service) : mlt_service_type :=
  match s with mkService t _ _ => t end.
Definition get_service (s : Service) : handle :=
  match s with mkService _ p _ => p end.
Definition children (s : Service) : list Service :=
  match s with mkService _ _ c => c end.

(** [Mlt::Playlist::count()]: the number of entries. *)
Definition count (playlist : Service) : Z := Z.of_nat (length (children playlist)).

(** ** The [Mlt::Parser] visitor interface *)

(** The virtual callbacks of [Mlt::Parser], over the fields [St] of the
    deriving class.  A callback returns an [int]; non-zero stops the
    descent. *)
Class Parser (St : Type) := {
  on_start_filter : handle → St → Z * St;
  on_start_producer : handle → St → Z * St;
  on_end_producer : handle → St → Z * St;
  on_start_playlist : handle → St → Z * St;
  on_end_playlist : handle → St → Z * St;
  on_start_tractor : handle → St → Z * St;
  on_end_tractor : handle → St → Z * St;
  on_start_multitrack : handle → St → Z * St;
  on_end_multitrack : handle → St → Z * St;
  on_start_track : St → Z * St;
  on_end_track : St → Z * St;
  on_end_filter : handle → St → Z * St;
  on_start_transition : handle → St → Z * St;
  on_end_transition : handle → St → Z * St;
  on_start_chain : handle → St → Z * St;
  on_end_chain : handle → St → Z * St;
  on_start_link : handle → St → Z * St;
  on_end_link : handle → St → Z * St;
}.

Section Parser_start.
Context {St : Type} `{!Parser St}.
(** The filters attached to an object, [producer.filter(i)]. *)
Variable filters : handle → list handle.

Definition on_start (t : mlt_service_type) : handle → St → Z * St :=
  match t with
  | mlt_service_producer_type => on_start_producer
  | mlt_service_playlist_type => on_start_playlist
  | mlt_service_tractor_type => on_start_tractor
  | mlt_service_multitrack_type => on_start_multitrack
  | mlt_service_chain_type => on_start_chain
  | mlt_service_filter_type => on_start_filter
  | mlt_service_transition_type => on_start_transition
  | mlt_service_link_type => on_start_link
  end.

Definition on_end (t : mlt_service_type) : handle → St → Z * St :=
  match t with
  | mlt_service_producer_type => on_end_producer
  | mlt_service_playlist_type => on_end_playlist
  | mlt_service_tractor_type => on_end_tractor
  | mlt_service_multitrack_type => on_end_multitrack
  | mlt_service_chain_type => on_end_chain
  | mlt_service_filter_type => on_end_filter
  | mlt_service_transition_type => on_end_transition
  | mlt_service_link_type => on_end_link
  end.

(** Sequencing of two visiting steps: the second runs only when the first
    returned [0]. *)
Definition and_then (f g : St → Z * St) (st : St) : Z * St :=
  let '(error, st') := f st in
  if error =? 0 then g st' else (error, st').

Definition visit_filter (f : handle) : St → Z * St :=
  and_then (on_start_filter f) (on_end_filter f).

Fixpoint visit_filters (fs : list handle) (st : St) : Z * St :=
  match fs with
  | [] => (0, st)
  | f :: fs' => and_then (visit_filter f) (visit_filters fs') st
  end.

(** Modelled from the spec: [Mlt::Parser::start] is the MLT library's
    traversal driver and is not part of this repository.  The
    specification describes it as a depth-first pre-order traversal that
    visits every node type and is aborted as soon as a callback signals
    it: the node's [on_start_*] callback runs first; if it returns [0] the
    contained services are visited in order (each track of a multitrack
    between [on_start_track] and [on_end_track]), then the attached
    filters, then the [on_end_*] callback; the first non-zero result ends
    the whole traversal. *)
Fixpoint Parser_start (s : Service) (st : St) {struct s} : Z * St :=
  match s with
  | mkService t p kids =>
      let visit (c : Service) : St → Z * St :=
        match t with
        | mlt_service_multitrack_type =>
            and_then on_start_track (and_then (Parser_start c) on_end_track)
        | _ => Parser_start c
        end in
      and_then (on_start t p)
        (and_then
           ((fix visit_children (l : list Service) (st : St) : Z * St :=
               match l with
               | [] => (0, st)
               | c :: l' => and_then (visit c) (visit_children l') st
               end) kids)
           (and_then (visit_filters (filters p)) (on_end t p))) st
  end.
End Parser_start.

(** ** [FindProducerParser] *)

(** The fields of [FindProducerParser]. *)
Record FindProducerParser := {
  fpp_uuid : QUuid;        (* m_uuid *)
  fpp_producer : Producer; (* m_producer *)
}.

(** [FindProducerParser(QUuid uuid)]: [m_producer] starts invalid. *)
Definition FindProducerParser_new (uuid : QUuid) : FindProducerParser :=
  {| fpp_uuid := uuid; fpp_producer := None |}.

(** [producer()] *)
Definition FindProducerParser_producer (this : FindProducerParser) : Producer :=
  fpp_producer this.

Section FindProducerParser.
(** [MLT.uuid(producer)]: the identifier attached to an object, the null
    uuid when it carries none. *)
Variable MLT_uuid : handle → QUuid.

Definition fpp_on_start_producer (producer : handle) (this : FindProducerParser)
  : Z * FindProducerParser :=
  if (MLT_uuid producer =? fpp_uuid this)%N
  then (1, {| fpp_uuid := fpp_uuid this; fpp_producer := Some producer |})
  else (0, this).

Definition fpp_return0 (this : FindProducerParser) : Z * FindProducerParser :=
  (0, this).

#[export] Instance FindProducerParser_Parser : Parser FindProducerParser := {|
  on_start_filter := λ _, fpp_return0;
  on_start_producer := fpp_on_start_producer;
  on_end_producer := λ _, fpp_return0;
  on_start_playlist := λ playlist, fpp_on_start_producer playlist;
  on_end_playlist := λ _, fpp_return0;
  on_start_tractor := λ tractor, fpp_on_start_producer tractor;
  on_end_tractor := λ _, fpp_return0;
  on_start_multitrack := λ _, fpp_return0;
  on_end_multitrack := λ _, fpp_return0;
  on_start_track := fpp_return0;
  on_end_track := fpp_return0;
  on_end_filter := λ _, fpp_return0;
  on_start_transition := λ _, fpp_return0;
  on_end_transition := λ _, fpp_return0;
  on_start_chain := λ chain, fpp_on_start_producer chain;
  on_end_chain := λ _, fpp_return0;
  on_start_link := λ _, fpp_return0;
  on_end_link := λ _, fpp_return0;
|}.
End FindProducerParser.

(** ** The application state *)

(** What the undo commands tell their collaborators, in call order: the
    calls on the attached-filters model, on the MLT controller and on the
    filter controller (with the properties the service has when the
    controller is called), and the [filtersPasted] signal. *)
Inductive Call :=
| doAddService_call (producer : Producer) (service : MltService) (row : Z)
| doRemoveService_call (producer : Producer) (row : Z)
| doMoveService_call (producer : Producer) (fromRow toRow : Z)
| doSetDisabled_call (producer : Producer) (row : Z) (disabled : bool)
| adjustFilters_call (producer : Producer) (index : Z)
| pasteFilters_call (producer : Producer) (filtersProducer : list handle)
| onUndoOrRedo_call (service : MltService) (now : gmap string string)
| filtersPasted_signal (producer : Producer).

(** The part of the application the commands read and write: the roots
    known to [MAIN] and [MLT], the data held by the MLT objects, and the
    calls made so far. *)
Record World := {
  (** [Some t] when [MAIN.isMultitrackValid()], [t] being
      [*MAIN.multitrack()]. *)
  MAIN_multitrack : option Service;
  (** [MAIN.playlist()], which may be null. *)
  MAIN_playlist : option Service;
  MLT_isClip : bool;
  (** [MLT.producer()] and [MLT.savedProducer()], which may be null. *)
  MLT_producer : option Service;
  MLT_savedProducer : option Service;
  (** [MLT.uuid(object)]. *)
  MLT_uuid : handle → QUuid;
  (** The filters attached to an object, in attachment order. *)
  filters : handle → list handle;
  (** The properties of an object. *)
  properties : handle → gmap string string;
  (** The disabled flag of a filter. *)
  disabled : handle → bool;
  calls : list Call;
}.

(** ** [findProducer] *)

(** [graphParser.start(root)] on the parser object, whose result code is
    dropped. *)
Definition graphParser_start (w : World) (root : Service) (graphParser : FindProducerParser)
  : FindProducerParser :=
  (Parser_start (Parser0 := FindProducerParser_Parser (MLT_uuid w)) (filters w)
     root graphParser).2.

(** One block of [findProducer]: when the root is there, traverse it and
    return the parser's producer if it is valid ([inl]); otherwise go on
    with the parser object as it is now ([inr]). *)
Definition search (w : World) (root : option Service) (graphParser : FindProducerParser)
  : Producer + FindProducerParser :=
  match root with
  | Some r =>
      let graphParser := graphParser_start w r graphParser in
      if is_valid (FindProducerParser_producer graphParser)
      then inl (FindProducerParser_producer graphParser)
      else inr graphParser
  | None => inr graphParser
  end.

(** [MAIN.playlist() && MAIN.playlist()->count() > 0] *)
Definition playlist_root (w : World) : option Service :=
  match MAIN_playlist w with
  | Some playlist => if 0 <? count playlist then Some playlist else None
  | None => None
  end.

(** [Mlt::Producer producer(MLT.isClip() ? MLT.producer() : MLT.savedProducer())],
    valid when the pointer is not null. *)
Definition clip_root (w : World) : option Service :=
  if MLT_isClip w then MLT_producer w else MLT_savedProducer w.

Definition findProducer (w : World) (uuid : QUuid) : Producer :=
  let graphParser := FindProducerParser_new uuid in
  match search w (MAIN_multitrack w) graphParser with
  | inl found => found
  | inr graphParser =>
      match search w (playlist_root w) graphParser with
      | inl found => found
      | inr graphParser =>
          match search w (clip_root w) graphParser with
          | inl found => found
          | inr _ => None
          end
      end
  end.

(** ** The lookup as the specification words it *)

(** The nodes below a root in depth-first pre-order. *)
Fixpoint preorder (s : Service) : list (mlt_service_type * handle) :=
  match s with
  | mkService t p kids => (t, p) :: flat_map preorder kids
  end.

(** The kinds that are nodes of the specification (clip, track,
    sub-timeline, chain): those whose identifier is compared. *)
Definition is_node (t : mlt_service_type) : bool :=
  match t with
  | mlt_service_producer_type | mlt_service_playlist_type
  | mlt_service_tractor_type | mlt_service_chain_type => true
  | _ => false
  end.

Definition is_match (w : World) (uuid : QUuid) (n : mlt_service_type * handle) : bool :=
  is_node n.1 && (MLT_uuid w n.2 =? uuid)%N.

(** The first node of a root, in pre-order, that carries the identifier. *)
Definition locate_in (w : World) (uuid : QUuid) (root : Service) : Producer :=
  snd <$> find (is_match w uuid) (preorder root).

(** The candidate roots in priority order, written out from the
    specification and not from the guards of [findProducer]: the active
    timeline if it is valid; the bin if there is one and it holds an entry;
    the standalone clip if there is one, which is the clip open in the
    player or, while the player shows something else, the clip saved
    aside. *)
Definition roots (w : World) : list Service :=
  match MAIN_multitrack w with
  | Some timeline => [timeline]
  | None => []
  end
  ++ match MAIN_playlist w with
     | Some bin => match children bin with
                   | [] => []
                   | _ :: _ => [bin]
                   end
     | None => []
     end
  ++ match (if MLT_isClip w then MLT_producer w else MLT_savedProducer w) with
     | Some clip => [clip]
     | None => []
     end.

Definition locate (w : World) (uuid : QUuid) : Producer :=
  head (omap (locate_in w uuid) (roots w)).

(** ** Running a command *)

(** The two conditions the commands assert with [Q_ASSERT]. *)
Inductive Assertion :=
| producer_is_valid  (* Q_ASSERT(producer.is_valid()) *)
| service_is_valid.  (* Q_ASSERT(m_service.is_valid()) *)

(** A command body either runs to its end, or stops at a failed [Q_ASSERT]
    (here assertions are compiled in, and a failed one aborts; the bodies
    of a build without them are in the module [QT_NO_DEBUG] below); either
    way the world reached is kept. *)
Inductive Outcome (A : Type) :=
| Done (a : A) (w : World)
| AssertionFailed (which : Assertion) (w : World).
Arguments Done {A} a w.
Arguments AssertionFailed {A} which w.

Definition M (A : Type) : Type := World → Outcome A.

Definition ret {A} (a : A) : M A := λ w, Done a w.

Definition bind {A B} (m : M A) (k : A → M B) : M B :=
  λ w, match m w with
       | Done a w' => k a w'
       | AssertionFailed which w' => AssertionFailed which w'
       end.

Notation "x <- m ;; k" := (bind m (λ x, k))
  (at level 100, m at next level, right associativity).
Notation "m ;; k" := (bind m (λ _, k))
  (at level 100, right associativity).

Definition Q_ASSERT (which : Assertion) (cond : bool) : M unit :=
  λ w, if cond then Done () w else AssertionFailed which w.

(** Reading the world. *)
Definition gets {A} (f : World → A) : M A := λ w, Done (f w) w.

(** [for (i ...) body(i)] over the given indices, in order. *)
Fixpoint for_each (indices : list nat) (body : nat → M unit) : M unit :=
  match indices with
  | [] => ret ()
  | i :: rest => body i;; for_each rest body
  end.

(** Field updates of [World]. *)
Definition set_filters (f : (handle → list handle) → handle → list handle) (w : World)
  : World :=
  {| MAIN_multitrack := MAIN_multitrack w; MAIN_playlist := MAIN_playlist w;
     MLT_isClip := MLT_isClip w; MLT_producer := MLT_producer w;
     MLT_savedProducer := MLT_savedProducer w; MLT_uuid := MLT_uuid w;
     filters := f (filters w); properties := properties w;
     disabled := disabled w; calls := calls w |}.

Definition set_properties
    (f : (handle → gmap string string) → handle → gmap string string) (w : World) : World :=
  {| MAIN_multitrack := MAIN_multitrack w; MAIN_playlist := MAIN_playlist w;
     MLT_isClip := MLT_isClip w; MLT_producer := MLT_producer w;
     MLT_savedProducer := MLT_savedProducer w; MLT_uuid := MLT_uuid w;
     filters := filters w; properties := f (properties w);
     disabled := disabled w; calls := calls w |}.

Definition set_disabled (f : (handle → bool) → handle → bool) (w : World) : World :=
  {| MAIN_multitrack := MAIN_multitrack w; MAIN_playlist := MAIN_playlist w;
     MLT_isClip := MLT_isClip w; MLT_producer := MLT_producer w;
     MLT_savedProducer := MLT_savedProducer w; MLT_uuid := MLT_uuid w;
     filters := filters w; properties := properties w;
     disabled := f (disabled w); calls := calls w |}.

Definition record (c : Call) (w : World) : World :=
  {| MAIN_multitrack := MAIN_multitrack w; MAIN_playlist := MAIN_playlist w;
     MLT_isClip := MLT_isClip w; MLT_producer := MLT_producer w;
     MLT_savedProducer := MLT_savedProducer w; MLT_uuid := MLT_uuid w;
     filters := filters w; properties := properties w;
     disabled := disabled w; calls := calls w ++ [c] |}.

(** A state change, as a command step. *)
Definition modify (f : World → World) : M unit := λ w, Done () (f w).

(** [findProducer(uuid)] as a command step. *)
Definition findProducer_ (uuid : QUuid) : M Producer := gets (λ w, findProducer w uuid).

(** [producer.filter_count()] *)
Definition filter_count (producer : Producer) : M Z :=
  gets (λ w, match producer with
             | Some p => Z.of_nat (length (filters w p))
             | None => 0
             end).

(** ** The collaborators of the commands *)

(** [row] as an index into a chain of [n] filters, when it is one. *)
Definition index_lt (row : Z) (n : nat) : option nat :=
  if (0 <=? row) && (row <? Z.of_nat n) then Some (Z.to_nat row) else None.

Definition insert_at {A} (i : nat) (x : A) (l : list A) : list A :=
  take i l ++ x :: drop i l.

(** Modelled from the spec: [AttachedFiltersModel] is not under src/.  The
    specification gives its contract: [doAddService(node, filter, index)]
    inserts the filter at the attachment index.  An index outside
    [0..count], an invalid producer or an invalid service is not described
    there; the chain is then left as it is. *)
Definition chain_add (service : MltService) (row : Z) (chain : list handle) : list handle :=
  match service, index_lt row (S (length chain)) with
  | Some s, Some i => insert_at i s chain
  | _, _ => chain
  end.

(** Modelled from the spec: [doRemoveService(node, index) -> Filter]
    detaches the filter at the attachment index ([AttachedFiltersModel] is
    not under src/); an index outside the chain leaves it as it is. *)
Definition chain_remove (row : Z) (chain : list handle) : list handle :=
  match index_lt row (length chain) with
  | Some i => delete i chain
  | None => chain
  end.

(** Modelled from the spec: [doMoveService(node, from, to)] relocates the
    filter at attachment index [from] to index [to]
    ([AttachedFiltersModel] is not under src/); indices outside the chain
    leave it as it is. *)
Definition chain_move (fromRow toRow : Z) (chain : list handle) : list handle :=
  match index_lt fromRow (length chain), index_lt toRow (length chain) with
  | Some i, Some j =>
      match chain !! i with
      | Some s => insert_at j s (delete i chain)
      | None => chain
      end
  | _, _ => chain
  end.

(** Modelled from the spec: [doGetService(node, index)] is the filter at
    the attachment index, an invalid service when there is none
    ([AttachedFiltersModel] is not under src/). *)
Definition chain_get (row : Z) (chain : list handle) : MltService :=
  i ← index_lt row (length chain); chain !! i.

(** A change of the object behind a producer handle; an invalid handle has
    no object to change. *)
Definition on_producer (producer : Producer) (f : handle → World → World) : World → World :=
  match producer with
  | Some p => f p
  | None => id
  end.

(** [m_model.doAddService(producer, service, row)], see [chain_add]. *)
Definition doAddService (producer : Producer) (service : MltService) (row : Z) : M unit :=
  modify (λ w, record (doAddService_call producer service row)
                 (on_producer producer
                    (λ p, set_filters (λ fs, <[p := chain_add service row (fs p)]> fs)) w)).

(** [m_model.doRemoveService(producer, row)], see [chain_remove]; the
    result is the detached filter. *)
Definition doRemoveService (producer : Producer) (row : Z) : M MltService :=
  removed <- gets (λ w, p ← producer; chain_get row (filters w p));;
  modify (λ w, record (doRemoveService_call producer row)
                 (on_producer producer
                    (λ p, set_filters (λ fs, <[p := chain_remove row (fs p)]> fs)) w));;
  ret removed.

(** [m_model.doMoveService(producer, fromRow, toRow)], see [chain_move]. *)
Definition doMoveService (producer : Producer) (fromRow toRow : Z) : M unit :=
  modify (λ w, record (doMoveService_call producer fromRow toRow)
                 (on_producer producer
                    (λ p, set_filters (λ fs, <[p := chain_move fromRow toRow (fs p)]> fs)) w)).

(** [attachedModel()->doGetService(producer, row)], see [chain_get]. *)
Definition doGetService (producer : Producer) (row : Z) : M MltService :=
  gets (λ w, p ← producer; chain_get row (filters w p)).

(** Modelled from the spec: [doSetDisabled(node, index, bool)] sets the
    disabled flag of the filter at the attachment index
    ([AttachedFiltersModel] is not under src/). *)
Definition doSetDisabled (producer : Producer) (row : Z) (disable : bool) : M unit :=
  modify (λ w, record (doSetDisabled_call producer row disable)
                 (match p ← producer; chain_get row (filters w p) with
                  | Some f => set_disabled (λ d, <[f := disable]> d) w
                  | None => w
                  end)).

(** [MLT.adjustFilters(producer, index)]: the engine's normalization pass
    over the filters from [index] on.  Only the call is kept; what the pass
    does to the filters' properties is outside this model. *)
Definition MLT_adjustFilters (producer : Producer) (index : Z) : M unit :=
  modify (record (adjustFilters_call producer index)).

(** Modelled from the spec: [Mlt::Properties::inherit] belongs to the MLT
    library; the specification has it overwrite the properties with the
    snapshot: every property of [that] is set on the object, the others
    are kept.  An invalid service has no properties to set. *)
Definition Service_inherit (service : MltService) (that : gmap string string) : M unit :=
  modify (λ w, match service with
               | Some s => set_properties (λ ps, <[s := that ∪ ps s]> ps) w
               | None => w
               end).

(** The properties behind a service handle, none for an invalid one. *)
Definition service_properties (w : World) (service : MltService) : gmap string string :=
  match service with
  | Some s => properties w s
  | None => ∅
  end.

(** [m_filterController->onUndoOrRedo(service)] *)
Definition onUndoOrRedo (service : MltService) : M unit :=
  modify (λ w, record (onUndoOrRedo_call service (service_properties w service)) w).

(** [emit QmlApplication::singleton().filtersPasted(&producer)] *)
Definition emit_filtersPasted (producer : Producer) : M unit :=
  modify (record (filtersPasted_signal producer)).

(** ** namespace [Filter]: the commands *)

(** [AddCommand::AddType] *)
Inductive AddType := AddSingle | AddSet | AddSetLast.

Definition AddType_eqb (a b : AddType) : bool :=
  match a, b with
  | AddSingle, AddSingle | AddSet, AddSet | AddSetLast, AddSetLast => true
  | _, _ => false
  end.

Record AddCommand := {
  AddCommand_text : QString;
  AddCommand_m_producer : Producer;
  AddCommand_m_producerUuid : QUuid;
  AddCommand_m_type : AddType;
  AddCommand_m_rows : list Z;
  AddCommand_m_services : list MltService;
}.

Record RemoveCommand := {
  RemoveCommand_text : QString;
  RemoveCommand_m_row : Z;
  RemoveCommand_m_producer : Producer;
  RemoveCommand_m_producerUuid : QUuid;
  RemoveCommand_m_service : MltService;
}.

Record MoveCommand := {
  MoveCommand_text : QString;
  MoveCommand_m_fromRow : Z;
  MoveCommand_m_toRow : Z;
  MoveCommand_m_producer : Producer;
  MoveCommand_m_producerUuid : QUuid;
}.

Record DisableCommand := {
  DisableCommand_text : QString;
  DisableCommand_m_row : Z;
  DisableCommand_m_producer : Producer;
  DisableCommand_m_producerUuid : QUuid;
  DisableCommand_m_disabled : bool;
}.

Record PasteCommand := {
  PasteCommand_text : QString;
  PasteCommand_m_xml : QString;
  PasteCommand_m_producerUuid : QUuid;
  PasteCommand_m_beforeXml : QString;
}.

Record UndoParameterCommand := {
  UndoParameterCommand_text : QString;
  (** [FilterController *], which the code tests against null. *)
  UndoParameterCommand_m_filterController : option handle;
  UndoParameterCommand_m_row : Z;
  UndoParameterCommand_m_producerUuid : QUuid;
  UndoParameterCommand_m_before : gmap string string;
  UndoParameterCommand_m_after : gmap string string;
  UndoParameterCommand_m_firstRedo : bool;
}.

(** What a [const QUndoCommand *other] can point to. *)
Inductive QUndoCommand :=
| an_AddCommand (c : AddCommand)
| a_RemoveCommand (c : RemoveCommand)
| a_MoveCommand (c : MoveCommand)
| a_DisableCommand (c : DisableCommand)
| a_PasteCommand (c : PasteCommand)
| an_UndoParameterCommand (c : UndoParameterCommand).

(** The values of [id()]. *)
Inductive UndoId :=
| UndoIdAdd | UndoIdRemove | UndoIdMove | UndoIdDisable | UndoIdPaste
| UndoIdChangeParameter.

(** Modelled from the spec: [id()] is declared in filtercommands.h, which is
    not under src/.  The specification has a command offered for merging
    only to one "of the same identity/kind"; [id()] is taken to tell the
    command kinds apart. *)
Definition id_ (c : QUndoCommand) : UndoId :=
  match c with
  | an_AddCommand _ => UndoIdAdd
  | a_RemoveCommand _ => UndoIdRemove
  | a_MoveCommand _ => UndoIdMove
  | a_DisableCommand _ => UndoIdDisable
  | a_PasteCommand _ => UndoIdPaste
  | an_UndoParameterCommand _ => UndoIdChangeParameter
  end.

Definition UndoId_eqb (a b : UndoId) : bool :=
  match a, b with
  | UndoIdAdd, UndoIdAdd | UndoIdRemove, UndoIdRemove | UndoIdMove, UndoIdMove
  | UndoIdDisable, UndoIdDisable | UndoIdPaste, UndoIdPaste
  | UndoIdChangeParameter, UndoIdChangeParameter => true
  | _, _ => false
  end.

(** [QObject::tr(pattern).arg(...)], without translation: the text around
    the place holders, with the arguments in their places. *)
Definition tr_arg (before name after : string) : QString := before +:+ name +:+ after.

(** *** [AddCommand] *)

(** The constructor; [producer] is [*model.producer()] and [producerUuid]
    the value of [MLT.ensureHasUuid(m_producer)]. *)
Definition AddCommand_new (producer : Producer) (producerUuid : QUuid) (name : QString)
    (service : MltService) (row : Z) (type : AddType) : AddCommand :=
  {| AddCommand_text :=
       if AddType_eqb type AddSingle
       then tr_arg "Add " name " filter"
       else tr_arg "Add " name " filter set";
     AddCommand_m_producer := producer;
     AddCommand_m_producerUuid := producerUuid;
     AddCommand_m_type := type;
     (* m_rows.push_back(row); m_services.push_back(service); *)
     AddCommand_m_rows := [row];
     AddCommand_m_services := [service] |}.

Definition AddCommand_redo (this : AddCommand) : M AddCommand :=
  let producer := AddCommand_m_producer this in
  producer <- (if negb (is_valid producer)
               then findProducer_ (AddCommand_m_producerUuid this)
               else ret producer);;
  Q_ASSERT producer_is_valid (is_valid producer);;
  adjustFrom <- filter_count producer;;
  for_each (seq 0 (length (AddCommand_m_rows this)))
    (λ i, doAddService producer (AddCommand_m_services this !!! i)
            (AddCommand_m_rows this !!! i));;
  (if AddType_eqb AddSetLast (AddCommand_m_type this)
   then MLT_adjustFilters producer adjustFrom
   else ret ());;
  (* Only hold the producer reference for the first redo and lookup by UUID
     thereafter. *)
  ret {| AddCommand_text := AddCommand_text this;
         AddCommand_m_producer := None;
         AddCommand_m_producerUuid := AddCommand_m_producerUuid this;
         AddCommand_m_type := AddCommand_m_type this;
         AddCommand_m_rows := AddCommand_m_rows this;
         AddCommand_m_services := AddCommand_m_services this |}.

Definition AddCommand_undo (this : AddCommand) : M AddCommand :=
  producer <- findProducer_ (AddCommand_m_producerUuid this);;
  Q_ASSERT producer_is_valid (is_valid producer);;
  (* Remove the services in reverse order *)
  for_each (reverse (seq 0 (length (AddCommand_m_rows this))))
    (λ i, _ <- doRemoveService producer (AddCommand_m_rows this !!! i);; ret ());;
  ret this.

(** [mergeWith]: the result and the command afterwards; [other] is left as
    it is.  [front()] of an empty list is undefined in the source; every
    constructed command holds at least one row and one service. *)
Definition AddCommand_mergeWith (this : AddCommand) (other : option QUndoCommand)
  : bool * AddCommand :=
  match other with
  | None => (false, this)
  | Some other =>
      if negb (UndoId_eqb (id_ other) (id_ (an_AddCommand this))) then (false, this)
      else
        match other with
        | an_AddCommand that =>
            if negb (AddType_eqb (AddCommand_m_type this) AddSet)
               || negb (AddType_eqb (AddCommand_m_type that) AddSet
                        || AddType_eqb (AddCommand_m_type that) AddSetLast)
            then
              (* Only merge services from the same filter set *)
              (false, this)
            else
              (true,
               {| AddCommand_text := AddCommand_text this;
                  AddCommand_m_producer := AddCommand_m_producer this;
                  AddCommand_m_producerUuid := AddCommand_m_producerUuid this;
                  AddCommand_m_type := AddCommand_m_type that;
                  AddCommand_m_rows :=
                    AddCommand_m_rows this ++ [AddCommand_m_rows that !!! 0%nat];
                  AddCommand_m_services :=
                    AddCommand_m_services this ++ [AddCommand_m_services that !!! 0%nat] |})
        | _ => (false, this)
        end
  end.

(** *** [RemoveCommand] *)

Definition RemoveCommand_new (producer : Producer) (producerUuid : QUuid) (name : QString)
    (service : MltService) (row : Z) : RemoveCommand :=
  {| RemoveCommand_text := tr_arg "Remove " name " filter";
     RemoveCommand_m_row := row;
     RemoveCommand_m_producer := producer;
     RemoveCommand_m_producerUuid := producerUuid;
     RemoveCommand_m_service := service |}.

Definition RemoveCommand_redo (this : RemoveCommand) : M RemoveCommand :=
  let producer := RemoveCommand_m_producer this in
  producer <- (if negb (is_valid producer)
               then findProducer_ (RemoveCommand_m_producerUuid this)
               else ret producer);;
  Q_ASSERT producer_is_valid (is_valid producer);;
  _ <- doRemoveService producer (RemoveCommand_m_row this);;
  (* Only hold the producer reference for the first redo and lookup by UUID
     thereafter. *)
  ret {| RemoveCommand_text := RemoveCommand_text this;
         RemoveCommand_m_row := RemoveCommand_m_row this;
         RemoveCommand_m_producer := None;
         RemoveCommand_m_producerUuid := RemoveCommand_m_producerUuid this;
         RemoveCommand_m_service := RemoveCommand_m_service this |}.

Definition RemoveCommand_undo (this : RemoveCommand) : M RemoveCommand :=
  Q_ASSERT service_is_valid (is_valid (RemoveCommand_m_service this));;
  producer <- findProducer_ (RemoveCommand_m_producerUuid this);;
  Q_ASSERT producer_is_valid (is_valid producer);;
  doAddService producer (RemoveCommand_m_service this) (RemoveCommand_m_row this);;
  ret this.

(** *** [MoveCommand] *)

Definition MoveCommand_new (producer : Producer) (producerUuid : QUuid) (name : QString)
    (fromRow toRow : Z) : MoveCommand :=
  {| MoveCommand_text := tr_arg "Move " name " filter";
     MoveCommand_m_fromRow := fromRow;
     MoveCommand_m_toRow := toRow;
     MoveCommand_m_producer := producer;
     MoveCommand_m_producerUuid := producerUuid |}.

Definition MoveCommand_redo (this : MoveCommand) : M MoveCommand :=
  let producer := MoveCommand_m_producer this in
  producer <- (if negb (is_valid producer)
               then findProducer_ (MoveCommand_m_producerUuid this)
               else ret producer);;
  Q_ASSERT producer_is_valid (is_valid producer);;
  (if is_valid producer
   then doMoveService producer (MoveCommand_m_fromRow this) (MoveCommand_m_toRow this)
   else ret ());;
  ret (if is_valid (MoveCommand_m_producer this)
       then
         (* Only hold the producer reference for the first redo and lookup by
            UUID thereafter. *)
         {| MoveCommand_text := MoveCommand_text this;
            MoveCommand_m_fromRow := MoveCommand_m_fromRow this;
            MoveCommand_m_toRow := MoveCommand_m_toRow this;
            MoveCommand_m_producer := None;
            MoveCommand_m_producerUuid := MoveCommand_m_producerUuid this |}
       else this).

Definition MoveCommand_undo (this : MoveCommand) : M MoveCommand :=
  producer <- findProducer_ (MoveCommand_m_producerUuid this);;
  Q_ASSERT producer_is_valid (is_valid producer);;
  (if is_valid producer
   then doMoveService producer (MoveCommand_m_toRow this) (MoveCommand_m_fromRow this)
   else ret ());;
  ret this.

(** *** [DisableCommand] *)

Definition DisableCommand_new (producer : Producer) (producerUuid : QUuid) (name : QString)
    (row : Z) (disabled : bool) : DisableCommand :=
  {| DisableCommand_text :=
       if disabled
       then tr_arg "Disable " name " filter"
       else tr_arg "Enable " name " filter";
     DisableCommand_m_row := row;
     DisableCommand_m_producer := producer;
     DisableCommand_m_producerUuid := producerUuid;
     DisableCommand_m_disabled := disabled |}.

Definition DisableCommand_redo (this : DisableCommand) : M DisableCommand :=
  let producer := DisableCommand_m_producer this in
  producer <- (if negb (is_valid producer)
               then findProducer_ (DisableCommand_m_producerUuid this)
               else ret producer);;
  Q_ASSERT producer_is_valid (is_valid producer);;
  (if is_valid producer
   then doSetDisabled producer (DisableCommand_m_row this) (DisableCommand_m_disabled this)
   else ret ());;
  ret (if is_valid (DisableCommand_m_producer this)
       then
         (* Only hold the producer reference for the first redo and lookup by
            UUID thereafter. *)
         {| DisableCommand_text := DisableCommand_text this;
            DisableCommand_m_row := DisableCommand_m_row this;
            DisableCommand_m_producer := None;
            DisableCommand_m_producerUuid := DisableCommand_m_producerUuid this;
            DisableCommand_m_disabled := DisableCommand_m_disabled this |}
       else this).

Definition DisableCommand_undo (this : DisableCommand) : M DisableCommand :=
  producer <- findProducer_ (DisableCommand_m_producerUuid this);;
  Q_ASSERT producer_is_valid (is_valid producer);;
  (if is_valid producer
   then doSetDisabled producer (DisableCommand_m_row this)
          (negb (DisableCommand_m_disabled this))
   else ret ());;
  ret this.

(** "Do not implement for now": the body is [return false]. *)
Definition DisableCommand_mergeWith (this : DisableCommand) (other : option QUndoCommand)
  : bool * DisableCommand :=
  (false, this).

(** *** [PasteCommand] *)

(** What [PasteCommand] uses of the MLT library and of the MLT controller,
    none of which is under src/. *)
Class MltEngine := {
  (** [Mlt::Producer(profile, "xml-string", xml)]: [None] when the producer
      built from the text is invalid, otherwise the filters attached to
      it. *)
  xml_string_producer : QString → option (list handle);
  (** [MLT.pasteFilters(&producer, &filtersProducer)]: the chain of the
      target once the filters of [filtersProducer] are merged onto it. *)
  MLT_pasteFilters : list handle → list handle → list handle;
  (** [get_int] on the text of a property. *)
  property_int : string → Z;
  kShotcutHiddenProperty : string;
}.

Section PasteCommand.
Context `{!MltEngine}.

(** [filter->get_int(name)], [0] when the property is not set. *)
Definition get_int (w : World) (filter : handle) (name : string) : Z :=
  match properties w filter !! name with
  | Some value => property_int value
  | None => 0
  end.

(** The test of the removal loop:
    [!filter->get_int("_loader") && !filter->get_int(kShotcutHiddenProperty)]. *)
Definition removable (w : World) (filter : handle) : bool :=
  (get_int w filter "_loader" =? 0) && (get_int w filter kShotcutHiddenProperty =? 0).

(** The loop [for (int i = 0; i < producer.filter_count(); i++)] of
    [undo], from index [i] on: a filter that passes the test is detached
    and the index stays ([i--] then [i++]); otherwise the index moves on.
    [fuel] bounds the number of iterations. *)
Fixpoint remove_all_from (w : World) (fuel : nat) (i : Z) (chain : list handle)
  : list handle :=
  match fuel with
  | O => chain
  | S fuel =>
      if i <? Z.of_nat (length chain) then
        match chain !! Z.to_nat i with
        | Some filter =>
            if removable w filter
            then remove_all_from w fuel (i - 1 + 1) (delete (Z.to_nat i) chain)
            else remove_all_from w fuel (i + 1) chain
        | None => remove_all_from w fuel (i + 1) chain
        end
      else chain
  end.

(** The whole loop; it runs at most once per attached filter. *)
Definition remove_all (w : World) (chain : list handle) : list handle :=
  remove_all_from w (length chain) 0 chain.

Definition MLT_pasteFilters_ (producer : Producer) (filtersProducer : list handle)
  : M unit :=
  modify (λ w, record (pasteFilters_call producer filtersProducer)
                 (on_producer producer
                    (λ p, set_filters
                            (λ fs, <[p := MLT_pasteFilters (fs p) filtersProducer]> fs)) w)).

(** [filtersProducer.is_valid() && filtersProducer.filter_count() > 0]
    guarding [MLT.pasteFilters]. *)
Definition paste_if_any (producer : Producer) (filtersProducer : option (list handle))
  : M unit :=
  match filtersProducer with
  | Some fs =>
      if 0 <? Z.of_nat (length fs) then MLT_pasteFilters_ producer fs else ret ()
  | None => ret ()
  end.

(** The constructor; [producerUuid] is the value of
    [MLT.ensureHasUuid] on the producer of the model and [beforeXml] that of
    [MLT.XML(model.producer())]. *)
Definition PasteCommand_new (producerUuid : QUuid) (filterProducerXml beforeXml : QString)
  : PasteCommand :=
  {| PasteCommand_text := "Paste filters";
     PasteCommand_m_xml := filterProducerXml;
     PasteCommand_m_producerUuid := producerUuid;
     PasteCommand_m_beforeXml := beforeXml |}.

Definition PasteCommand_redo (this : PasteCommand) : M PasteCommand :=
  producer <- findProducer_ (PasteCommand_m_producerUuid this);;
  Q_ASSERT producer_is_valid (is_valid producer);;
  let filtersProducer := xml_string_producer (PasteCommand_m_xml this) in
  paste_if_any producer filtersProducer;;
  emit_filtersPasted producer;;
  ret this.

Definition PasteCommand_undo (this : PasteCommand) : M PasteCommand :=
  producer <- findProducer_ (PasteCommand_m_producerUuid this);;
  Q_ASSERT producer_is_valid (is_valid producer);;
  (* Remove all filters *)
  modify (λ w, on_producer producer
                 (λ p, set_filters (λ fs, <[p := remove_all w (fs p)]> fs)) w);;
  (* Restore the "before" filters *)
  let filtersProducer := xml_string_producer (PasteCommand_m_beforeXml this) in
  paste_if_any producer filtersProducer;;
  emit_filtersPasted producer;;
  ret this.
End PasteCommand.

(** *** [UndoParameterCommand] *)

(** The constructor.  [producer] is
    [controller->attachedModel()->producer()], whose filter at [row] is
    [getService(m_row)], and [producerUuid] the value of
    [MLT.ensureHasUuid] on it.  Both snapshots start empty, so that
    [inherit] leaves in them what it copies. *)
Definition UndoParameterCommand_new (w : World) (producer : Producer) (producerUuid : QUuid)
    (name : QString) (controller : handle) (row : Z) (before : gmap string string)
    (desc : QString) : UndoParameterCommand :=
  {| UndoParameterCommand_text :=
       if String.eqb desc EmptyString
       then tr_arg "Change " name " filter"
       else tr_arg "Change " name " filter: " +:+ desc;
     UndoParameterCommand_m_filterController := Some controller;
     UndoParameterCommand_m_row := row;
     UndoParameterCommand_m_producerUuid := producerUuid;
     UndoParameterCommand_m_before := before ∪ ∅;
     UndoParameterCommand_m_after :=
       match p ← producer; chain_get row (filters w p) with
       | Some service => properties w service ∪ ∅
       | None => ∅
       end;
     UndoParameterCommand_m_firstRedo := true |}.

Definition UndoParameterCommand_redo (this : UndoParameterCommand) : M UndoParameterCommand :=
  if UndoParameterCommand_m_firstRedo this then
    ret {| UndoParameterCommand_text := UndoParameterCommand_text this;
           UndoParameterCommand_m_filterController :=
             UndoParameterCommand_m_filterController this;
           UndoParameterCommand_m_row := UndoParameterCommand_m_row this;
           UndoParameterCommand_m_producerUuid := UndoParameterCommand_m_producerUuid this;
           UndoParameterCommand_m_before := UndoParameterCommand_m_before this;
           UndoParameterCommand_m_after := UndoParameterCommand_m_after this;
           UndoParameterCommand_m_firstRedo := false |}
  else
    producer <- findProducer_ (UndoParameterCommand_m_producerUuid this);;
    Q_ASSERT producer_is_valid (is_valid producer);;
    (if is_valid producer && is_valid (UndoParameterCommand_m_filterController this)
     then
       service <- doGetService producer (UndoParameterCommand_m_row this);;
       Service_inherit service (UndoParameterCommand_m_after this);;
       onUndoOrRedo service
     else ret ());;
    ret this.

Definition UndoParameterCommand_undo (this : UndoParameterCommand) : M UndoParameterCommand :=
  producer <- findProducer_ (UndoParameterCommand_m_producerUuid this);;
  Q_ASSERT producer_is_valid (is_valid producer);;
  (if is_valid producer && is_valid (UndoParameterCommand_m_filterController this)
   then
     service <- doGetService producer (UndoParameterCommand_m_row this);;
     Service_inherit service (UndoParameterCommand_m_before this);;
     onUndoOrRedo service
   else ret ());;
  ret this.

(** [mergeWith]: the result and the command afterwards; [other] is left as
    it is. *)
Definition UndoParameterCommand_mergeWith (this : UndoParameterCommand) (other : QUndoCommand)
  : bool * UndoParameterCommand :=
  match other with
  | an_UndoParameterCommand that =>
      if negb (UndoId_eqb (id_ other) (id_ (an_UndoParameterCommand this)))
         || negb (UndoParameterCommand_m_row that =? UndoParameterCommand_m_row this)
         || negb (UndoParameterCommand_m_producerUuid that
                  =? UndoParameterCommand_m_producerUuid this)%N
         || negb (String.eqb (UndoParameterCommand_text that) (UndoParameterCommand_text this))
      then (false, this)
      else
        (true,
         {| UndoParameterCommand_text := UndoParameterCommand_text this;
            UndoParameterCommand_m_filterController :=
              UndoParameterCommand_m_filterController this;
            UndoParameterCommand_m_row := UndoParameterCommand_m_row this;
            UndoParameterCommand_m_producerUuid := UndoParameterCommand_m_producerUuid this;
            UndoParameterCommand_m_before := UndoParameterCommand_m_before this;
            UndoParameterCommand_m_after := UndoParameterCommand_m_after that;
            UndoParameterCommand_m_firstRedo := UndoParameterCommand_m_firstRedo this |})
  | _ =>
      (* [that->id() != id()] *)
      (false, this)
  end.

(** The parser object once it has met the node [p]. *)
Definition found (uuid : QUuid) (p : handle) : FindProducerParser :=
  {| fpp_uuid := uuid; fpp_producer := Some p |}.

(** What a traversal returns and leaves in the parser object [gp], given
    the first matching node if any. *)
Definition outcome_of (uuid : QUuid) (gp : FindProducerParser)
    (hit : option (mlt_service_type * handle)) : Z * FindProducerParser :=
  match hit with
  | Some n => (1, found uuid n.2)
  | None => (0, gp)
  end.

(** ** The effect of a command on the world, step by step *)

(** One call on the attached-filters model for the object [p]: the call is
    recorded and the chain of [p] becomes [g] of what it was. *)
Definition chain_step (p : handle) (s : Call * (list handle → list handle)) (w : World)
  : World :=
  record s.1 (set_filters (λ fs, <[p := s.2 (fs p)]> fs) w).

Definition run_steps (p : handle) (steps : list (Call * (list handle → list handle)))
    (w : World) : World :=
  foldl (λ w s, chain_step p s w) w steps.

(** The roots and the identifiers are those of [w]: every lookup gives the
    same result in both worlds. *)
Definition same_graph (w w' : World) : Prop :=
  MAIN_multitrack w' = MAIN_multitrack w
  ∧ MAIN_playlist w' = MAIN_playlist w
  ∧ MLT_isClip w' = MLT_isClip w
  ∧ MLT_producer w' = MLT_producer w
  ∧ MLT_savedProducer w' = MLT_savedProducer w
  ∧ MLT_uuid w' = MLT_uuid w.

(** The rows and services of an [AddCommand], paired by index. *)
Definition AddCommand_pairs (this : AddCommand) : list (Z * MltService) :=
  zip (AddCommand_m_rows this) (AddCommand_m_services this).

(** The held reference while it is valid, the result of the lookup
    otherwise. *)
Definition held_or_found (held : Producer) (uuid : QUuid) (w : World) : Producer :=
  if is_valid held then held else findProducer w uuid.

(** The producer [AddCommand::redo] works on. *)
Definition AddCommand_target (this : AddCommand) (w : World) : Producer :=
  held_or_found (AddCommand_m_producer this) (AddCommand_m_producerUuid this) w.

(** Inserting the pairs in list order. *)
Definition insert_all (pairs : list (Z * MltService)) (chain : list handle) : list handle :=
  foldl (λ c rs, chain_add rs.2 rs.1 c) chain pairs.

(** Removing at the rows in list order. *)
Definition remove_rows (rows : list Z) (chain : list handle) : list handle :=
  foldl (λ c r, chain_remove r c) chain rows.

(** Every service is valid and every row is an attachment index of the chain
    at the time of its insertion, the chain having [n] filters before the
    first. *)
Fixpoint insertable (pairs : list (Z * MltService)) (n : nat) : bool :=
  match pairs with
  | [] => true
  | (row, service) :: rest =>
      is_valid service && (0 <=? row) && (row <=? Z.of_nat n) && insertable rest (S n)
  end.

(** The calls of [redo] and [undo] of an [AddCommand] on the producer [p]. *)
Definition add_calls (p : handle) (pairs : list (Z * MltService)) : list Call :=
  (λ rs, doAddService_call (Some p) rs.2 rs.1) <$> pairs.

Definition remove_calls (p : handle) (rows : list Z) : list Call :=
  (λ r, doRemoveService_call (Some p) r) <$> rows.

(** [m_producer = Mlt::Producer()] *)
Definition AddCommand_released (this : AddCommand) : AddCommand :=
  {| AddCommand_text := AddCommand_text this;
     AddCommand_m_producer := None;
     AddCommand_m_producerUuid := AddCommand_m_producerUuid this;
     AddCommand_m_type := AddCommand_m_type this;
     AddCommand_m_rows := AddCommand_m_rows this;
     AddCommand_m_services := AddCommand_m_services this |}.

Definition add_steps (p : handle) (pairs : list (Z * MltService))
  : list (Call * (list handle → list handle)) :=
  (λ rs, (doAddService_call (Some p) rs.2 rs.1, chain_add rs.2 rs.1)) <$> pairs.

Definition remove_steps (p : handle) (rows : list Z)
  : list (Call * (list handle → list handle)) :=
  (λ r, (doRemoveService_call (Some p) r, chain_remove r)) <$> rows.

(** The world after [AddCommand::redo] on the producer [p]. *)
Definition AddCommand_redo_world (p : handle) (this : AddCommand) (w : World) : World :=
  let w1 := run_steps p (add_steps p (AddCommand_pairs this)) w in
  if AddType_eqb AddSetLast (AddCommand_m_type this)
  then record (adjustFilters_call (Some p) (Z.of_nat (length (filters w p)))) w1
  else w1.

(** The world after [AddCommand::undo] on the producer [p]. *)
Definition AddCommand_undo_world (p : handle) (this : AddCommand) (w : World) : World :=
  run_steps p (remove_steps p (reverse (AddCommand_m_rows this))) w.

(** ** A small project, for the examples *)

(** A timeline with one track holding the clip [4] and the chain [5], a
    playlist holding the clip [7], and the saved clip [8].  The clip [60] is
    in none of them. *)
Definition demo_timeline : Service :=
  mkService mlt_service_tractor_type 1
    [mkService mlt_service_multitrack_type 2
       [mkService mlt_service_playlist_type 3
          [mkService mlt_service_producer_type 4 [];
           mkService mlt_service_chain_type 5 [mkService mlt_service_link_type 9 []]]];
     mkService mlt_service_transition_type 10 []].

Definition demo_playlist : Service :=
  mkService mlt_service_playlist_type 6 [mkService mlt_service_producer_type 7 []].

(** The clip [4] carries the identifier [42] and the filters [11; 12; 13];
    the clips [7] and [8] both carry [43]; the multitrack [2] carries [44];
    the clip [60] carries [99] and the filter [61]; filter [11] is a loader
    and filter [12] is disabled. *)
Definition demo_world : World :=
  {| MAIN_multitrack := Some demo_timeline;
     MAIN_playlist := Some demo_playlist;
     MLT_isClip := false;
     MLT_producer := None;
     MLT_savedProducer := Some (mkService mlt_service_producer_type 8 []);
     MLT_uuid := λ h, if (h =? 4)%positive then 42%N
                      else if (h =? 7)%positive || (h =? 8)%positive then 43%N
                      else if (h =? 2)%positive then 44%N
                      else if (h =? 60)%positive then 99%N
                      else 0%N;
     filters := λ h, if (h =? 4)%positive then [11; 12; 13]%positive
                     else if (h =? 60)%positive then [61]%positive
                     else [];
     properties := λ h, if (h =? 11)%positive then {[ "_loader" := "1" ]} else ∅;
     disabled := λ h, (h =? 12)%positive;
     calls := [] |}.

(** [Add(row = 2, filter = 20)] on the clip [4]. *)
Definition demo_add : AddCommand :=
  AddCommand_new (Some 4%positive) 42%N "Blur" (Some 20%positive) 2 AddSingle.


(** Two members of a set on the clip [4]. *)
Definition demo_add_set : AddCommand :=
  AddCommand_new (Some 4%positive) 42%N "Blur" (Some 20%positive) 3 AddSet.

Definition demo_add_set_last : AddCommand :=
  AddCommand_new (Some 4%positive) 42%N "Glow" (Some 21%positive) 4 AddSetLast.

(** ** What the specification speaks of, for every command *)

(** The indices of the [MLT.adjustFilters] calls among the calls. *)
Definition adjusted_from (cs : list Call) : list Z :=
  omap (λ c, match c with adjustFilters_call _ index => Some index | _ => None end) cs.

(** The producers the [filtersPasted] signal was emitted for. *)
Definition pasted_signals (cs : list Call) : list Producer :=
  omap (λ c, match c with filtersPasted_signal producer => Some producer | _ => None end) cs.

(** The [MLT.pasteFilters] calls among the calls. *)
Definition paste_calls (cs : list Call) : list (Producer * list handle) :=
  omap (λ c, match c with
             | pasteFilters_call producer fs => Some (producer, fs)
             | _ => None
             end) cs.

(** The result of an [AddCommand::mergeWith] that is accepted. *)
Definition AddCommand_merged (this : AddCommand) (type : AddType) (row : Z)
    (service : MltService) : AddCommand :=
  {| AddCommand_text := AddCommand_text this;
     AddCommand_m_producer := AddCommand_m_producer this;
     AddCommand_m_producerUuid := AddCommand_m_producerUuid this;
     AddCommand_m_type := type;
     AddCommand_m_rows := AddCommand_m_rows this ++ [row];
     AddCommand_m_services := AddCommand_m_services this ++ [service] |}.

(** The producer [redo] resolves, when it resolves one: the first [redo] of
    an [UndoParameterCommand] does not. *)
Definition redo_target (c : QUndoCommand) (w : World) : option Producer :=
  match c with
  | an_AddCommand c =>
      Some (held_or_found (AddCommand_m_producer c) (AddCommand_m_producerUuid c) w)
  | a_RemoveCommand c =>
      Some (held_or_found (RemoveCommand_m_producer c) (RemoveCommand_m_producerUuid c) w)
  | a_MoveCommand c =>
      Some (held_or_found (MoveCommand_m_producer c) (MoveCommand_m_producerUuid c) w)
  | a_DisableCommand c =>
      Some (held_or_found (DisableCommand_m_producer c) (DisableCommand_m_producerUuid c) w)
  | a_PasteCommand c => Some (findProducer w (PasteCommand_m_producerUuid c))
  | an_UndoParameterCommand c =>
      if UndoParameterCommand_m_firstRedo c then None
      else Some (findProducer w (UndoParameterCommand_m_producerUuid c))
  end.

(** The producer [undo] resolves. *)
Definition undo_target (c : QUndoCommand) (w : World) : Producer :=
  findProducer w
    match c with
    | an_AddCommand c => AddCommand_m_producerUuid c
    | a_RemoveCommand c => RemoveCommand_m_producerUuid c
    | a_MoveCommand c => MoveCommand_m_producerUuid c
    | a_DisableCommand c => DisableCommand_m_producerUuid c
    | a_PasteCommand c => PasteCommand_m_producerUuid c
    | an_UndoParameterCommand c => UndoParameterCommand_m_producerUuid c
    end.

(** The virtual [QUndoCommand::redo()] and [undo()]. *)
Definition redo `{!MltEngine} (c : QUndoCommand) : M QUndoCommand :=
  match c with
  | an_AddCommand c => c' <- AddCommand_redo c;; ret (an_AddCommand c')
  | a_RemoveCommand c => c' <- RemoveCommand_redo c;; ret (a_RemoveCommand c')
  | a_MoveCommand c => c' <- MoveCommand_redo c;; ret (a_MoveCommand c')
  | a_DisableCommand c => c' <- DisableCommand_redo c;; ret (a_DisableCommand c')
  | a_PasteCommand c => c' <- PasteCommand_redo c;; ret (a_PasteCommand c')
  | an_UndoParameterCommand c =>
      c' <- UndoParameterCommand_redo c;; ret (an_UndoParameterCommand c')
  end.

Definition undo `{!MltEngine} (c : QUndoCommand) : M QUndoCommand :=
  match c with
  | an_AddCommand c => c' <- AddCommand_undo c;; ret (an_AddCommand c')
  | a_RemoveCommand c => c' <- RemoveCommand_undo c;; ret (a_RemoveCommand c')
  | a_MoveCommand c => c' <- MoveCommand_undo c;; ret (a_MoveCommand c')
  | a_DisableCommand c => c' <- DisableCommand_undo c;; ret (a_DisableCommand c')
  | a_PasteCommand c => c' <- PasteCommand_undo c;; ret (a_PasteCommand c')
  | an_UndoParameterCommand c =>
      c' <- UndoParameterCommand_undo c;; ret (an_UndoParameterCommand c')
  end.

(** [m_producer = Mlt::Producer()] when it was valid. *)
Definition DisableCommand_released (this : DisableCommand) : DisableCommand :=
  if is_valid (DisableCommand_m_producer this)
  then {| DisableCommand_text := DisableCommand_text this;
          DisableCommand_m_row := DisableCommand_m_row this;
          DisableCommand_m_producer := None;
          DisableCommand_m_producerUuid := DisableCommand_m_producerUuid this;
          DisableCommand_m_disabled := DisableCommand_m_disabled this |}
  else this.

(** The world after [doSetDisabled(producer, row, disable)] on the producer
    [p]. *)
Definition doSetDisabled_world (p : handle) (row : Z) (disable : bool) (w : World) : World :=
  record (doSetDisabled_call (Some p) row disable)
    (match chain_get row (filters w p) with
     | Some f => set_disabled (λ d, <[f := disable]> d) w
     | None => w
     end).

(** The world after [service.inherit(snapshot)] and [onUndoOrRedo(service)]
    for the filter at [row] of the producer [p]. *)
Definition inherit_world (p : handle) (row : Z) (snapshot : gmap string string) (w : World)
  : World :=
  let service := chain_get row (filters w p) in
  let w' := match service with
            | Some s => set_properties (λ ps, <[s := snapshot ∪ ps s]> ps) w
            | None => w
            end in
  record (onUndoOrRedo_call service (service_properties w' service)) w'.

(** [m_firstRedo = false] *)
Definition UndoParameterCommand_redone (this : UndoParameterCommand) : UndoParameterCommand :=
  {| UndoParameterCommand_text := UndoParameterCommand_text this;
     UndoParameterCommand_m_filterController := UndoParameterCommand_m_filterController this;
     UndoParameterCommand_m_row := UndoParameterCommand_m_row this;
     UndoParameterCommand_m_producerUuid := UndoParameterCommand_m_producerUuid this;
     UndoParameterCommand_m_before := UndoParameterCommand_m_before this;
     UndoParameterCommand_m_after := UndoParameterCommand_m_after this;
     UndoParameterCommand_m_firstRedo := false |}.

(** [m_after = that->m_after] *)
Definition UndoParameterCommand_merged (this that : UndoParameterCommand)
  : UndoParameterCommand :=
  {| UndoParameterCommand_text := UndoParameterCommand_text this;
     UndoParameterCommand_m_filterController := UndoParameterCommand_m_filterController this;
     UndoParameterCommand_m_row := UndoParameterCommand_m_row this;
     UndoParameterCommand_m_producerUuid := UndoParameterCommand_m_producerUuid this;
     UndoParameterCommand_m_before := UndoParameterCommand_m_before this;
     UndoParameterCommand_m_after := UndoParameterCommand_m_after that;
     UndoParameterCommand_m_firstRedo := UndoParameterCommand_m_firstRedo this |}.

(** A snapshot that is malformed or holds no filter. *)
Definition nothing_to_paste (filtersProducer : option (list handle)) : Prop :=
  filtersProducer = None ∨ filtersProducer = Some [].

(** The chain after the guarded [MLT.pasteFilters] of [redo] and [undo]. *)
Definition paste_chain `{!MltEngine} (filtersProducer : option (list handle))
    (chain : list handle) : list handle :=
  match filtersProducer with
  | Some fs => if 0 <? Z.of_nat (length fs) then MLT_pasteFilters chain fs else chain
  | None => chain
  end.

(** The world after the guarded [MLT.pasteFilters] on the producer [p]. *)
Definition paste_world `{!MltEngine} (p : handle) (filtersProducer : option (list handle))
    (w : World) : World :=
  match filtersProducer with
  | Some fs =>
      if 0 <? Z.of_nat (length fs)
      then chain_step p (pasteFilters_call (Some p) fs, λ chain, MLT_pasteFilters chain fs) w
      else w
  | None => w
  end.

(** The worlds after [PasteCommand::redo] and [undo] on the producer [p]. *)
Definition PasteCommand_redo_world `{!MltEngine} (p : handle) (this : PasteCommand)
    (w : World) : World :=
  record (filtersPasted_signal (Some p))
    (paste_world p (xml_string_producer (PasteCommand_m_xml this)) w).

Definition PasteCommand_undo_world `{!MltEngine} (p : handle) (this : PasteCommand)
    (w : World) : World :=
  record (filtersPasted_signal (Some p))
    (paste_world p (xml_string_producer (PasteCommand_m_beforeXml this))
       (set_filters (λ fs, <[p := remove_all w (fs p)]> fs) w)).

(** An engine for the examples: the text [filters] holds the filters
    [30; 31], the text [empty] a producer without filters, any other text
    is malformed; pasting appends; a property is set when its text is
    [1]. *)
Definition demo_engine : MltEngine :=
  {| xml_string_producer := λ xml,
       if String.eqb xml "filters" then Some [30; 31]%positive
       else if String.eqb xml "empty" then Some []
       else None;
     MLT_pasteFilters := λ chain fs, chain ++ fs;
     property_int := λ value, if String.eqb value "1" then 1 else 0;
     kShotcutHiddenProperty := "shotcut:hidden" |}.

(** Pasting the text [filters] onto the clip [4], whose filters were
    captured as the text [empty]; and the same with a malformed text. *)
Definition demo_paste : PasteCommand :=
  PasteCommand_new 42%N "filters" "empty".

Definition demo_paste_malformed : PasteCommand :=
  PasteCommand_new 42%N "garbled" "empty".

(** Disabling the filter at row [1] of the clip [4], which is disabled
    already. *)
Definition demo_disable : DisableCommand :=
  DisableCommand_new (Some 4%positive) 42%N "Blur" 1 true.

(** Enabling it. *)
Definition demo_enable : DisableCommand :=
  DisableCommand_new (Some 4%positive) 42%N "Blur" 1 false.

(** A parameter change of the filter at row [2] of the clip [4], and a
    second one that continues it. *)
Definition demo_change : UndoParameterCommand :=
  {| UndoParameterCommand_text := tr_arg "Change " "Blur" " filter";
     UndoParameterCommand_m_filterController := Some 50%positive;
     UndoParameterCommand_m_row := 2;
     UndoParameterCommand_m_producerUuid := 42%N;
     UndoParameterCommand_m_before := {[ "radius" := "1" ]};
     UndoParameterCommand_m_after := {[ "radius" := "2" ]};
     UndoParameterCommand_m_firstRedo := false |}.

Definition demo_change_more : UndoParameterCommand :=
  {| UndoParameterCommand_text := tr_arg "Change " "Blur" " filter";
     UndoParameterCommand_m_filterController := Some 50%positive;
     UndoParameterCommand_m_row := 2;
     UndoParameterCommand_m_producerUuid := 42%N;
     UndoParameterCommand_m_before := {[ "radius" := "2" ]};
     UndoParameterCommand_m_after := {[ "radius" := "3" ]};
     UndoParameterCommand_m_firstRedo := false |}.


(** An [AddCommand] that has released its reference, for the clip [60],
    which is in none of the roots. *)
Definition demo_add_lost : AddCommand :=
  AddCommand_released
    (AddCommand_new (Some 60%positive) 99%N "Blur" (Some 20%positive) 1 AddSingle).

(** ** Builds without assertions *)

(** Qt defines [Q_ASSERT(cond)] away when [QT_NO_DEBUG] is set, as in a
    release build: the condition is not evaluated and nothing stops.  In this
    module [redo] and [undo] of every command are the bodies above, word for
    word, read with that macro. *)
Module QT_NO_DEBUG.

Definition Q_ASSERT (which : Assertion) (cond : bool) : M unit := ret ().

Definition AddCommand_redo (this : AddCommand) : M AddCommand :=
  let producer := AddCommand_m_producer this in
  producer <- (if negb (is_valid producer)
               then findProducer_ (AddCommand_m_producerUuid this)
               else ret producer);;
  Q_ASSERT producer_is_valid (is_valid producer);;
  adjustFrom <- filter_count producer;;
  for_each (seq 0 (length (AddCommand_m_rows this)))
    (λ i, doAddService producer (AddCommand_m_services this !!! i)
            (AddCommand_m_rows this !!! i));;
  (if AddType_eqb AddSetLast (AddCommand_m_type this)
   then MLT_adjustFilters producer adjustFrom
   else ret ());;
  (* Only hold the producer reference for the first redo and lookup by UUID
     thereafter. *)
  ret {| AddCommand_text := AddCommand_text this;
         AddCommand_m_producer := None;
         AddCommand_m_producerUuid := AddCommand_m_producerUuid this;
         AddCommand_m_type := AddCommand_m_type this;
         AddCommand_m_rows := AddCommand_m_rows this;
         AddCommand_m_services := AddCommand_m_services this |}.

Definition AddCommand_undo (this : AddCommand) : M AddCommand :=
  producer <- findProducer_ (AddCommand_m_producerUuid this);;
  Q_ASSERT producer_is_valid (is_valid producer);;
  (* Remove the services in reverse order *)
  for_each (reverse (seq 0 (length (AddCommand_m_rows this))))
    (λ i, _ <- doRemoveService producer (AddCommand_m_rows this !!! i);; ret ());;
  ret this.

Definition RemoveCommand_redo (this : RemoveCommand) : M RemoveCommand :=
  let producer := RemoveCommand_m_producer this in
  producer <- (if negb (is_valid producer)
               then findProducer_ (RemoveCommand_m_producerUuid this)
               else ret producer);;
  Q_ASSERT producer_is_valid (is_valid producer);;
  _ <- doRemoveService producer (RemoveCommand_m_row this);;
  (* Only hold the producer reference for the first redo and lookup by UUID
     thereafter. *)
  ret {| RemoveCommand_text := RemoveCommand_text this;
         RemoveCommand_m_row := RemoveCommand_m_row this;
         RemoveCommand_m_producer := None;
         RemoveCommand_m_producerUuid := RemoveCommand_m_producerUuid this;
         RemoveCommand_m_service := RemoveCommand_m_service this |}.

Definition RemoveCommand_undo (this : RemoveCommand) : M RemoveCommand :=
  Q_ASSERT service_is_valid (is_valid (RemoveCommand_m_service this));;
  producer <- findProducer_ (RemoveCommand_m_producerUuid this);;
  Q_ASSERT producer_is_valid (is_valid producer);;
  doAddService producer (RemoveCommand_m_service this) (RemoveCommand_m_row this);;
  ret this.

Definition MoveCommand_redo (this : MoveCommand) : M MoveCommand :=
  let producer := MoveCommand_m_producer this in
  producer <- (if negb (is_valid producer)
               then findProducer_ (MoveCommand_m_producerUuid this)
               else ret producer);;
  Q_ASSERT producer_is_valid (is_valid producer);;
  (if is_valid producer
   then doMoveService producer (MoveCommand_m_fromRow this) (MoveCommand_m_toRow this)
   else ret ());;
  ret (if is_valid (MoveCommand_m_producer this)
       then
         (* Only hold the producer reference for the first redo and lookup by
            UUID thereafter. *)
         {| MoveCommand_text := MoveCommand_text this;
            MoveCommand_m_fromRow := MoveCommand_m_fromRow this;
            MoveCommand_m_toRow := MoveCommand_m_toRow this;
            MoveCommand_m_producer := None;
            MoveCommand_m_producerUuid := MoveCommand_m_producerUuid this |}
       else this).

Definition MoveCommand_undo (this : MoveCommand) : M MoveCommand :=
  producer <- findProducer_ (MoveCommand_m_producerUuid this);;
  Q_ASSERT producer_is_valid (is_valid producer);;
  (if is_valid producer
   then doMoveService producer (MoveCommand_m_toRow this) (MoveCommand_m_fromRow this)
   else ret ());;
  ret this.

Definition DisableCommand_redo (this : DisableCommand) : M DisableCommand :=
  let producer := DisableCommand_m_producer this in
  producer <- (if negb (is_valid producer)
               then findProducer_ (DisableCommand_m_producerUuid this)
               else ret producer);;
  Q_ASSERT producer_is_valid (is_valid producer);;
  (if is_valid producer
   then doSetDisabled producer (DisableCommand_m_row this) (DisableCommand_m_disabled this)
   else ret ());;
  ret (if is_valid (DisableCommand_m_producer this)
       then
         (* Only hold the producer reference for the first redo and lookup by
            UUID thereafter. *)
         {| DisableCommand_text := DisableCommand_text this;
            DisableCommand_m_row := DisableCommand_m_row this;
            DisableCommand_m_producer := None;
            DisableCommand_m_producerUuid := DisableCommand_m_producerUuid this;
            DisableCommand_m_disabled := DisableCommand_m_disabled this |}
       else this).

Definition DisableCommand_undo (this : DisableCommand) : M DisableCommand :=
  producer <- findProducer_ (DisableCommand_m_producerUuid this);;
  Q_ASSERT producer_is_valid (is_valid producer);;
  (if is_valid producer
   then doSetDisabled producer (DisableCommand_m_row this)
          (negb (DisableCommand_m_disabled this))
   else ret ());;
  ret this.

Section PasteCommand.
Context `{!MltEngine}.

Definition PasteCommand_redo (this : PasteCommand) : M PasteCommand :=
  producer <- findProducer_ (PasteCommand_m_producerUuid this);;
  Q_ASSERT producer_is_valid (is_valid producer);;
  let filtersProducer := xml_string_producer (PasteCommand_m_xml this) in
  paste_if_any producer filtersProducer;;
  emit_filtersPasted producer;;
  ret this.

Definition PasteCommand_undo (this : PasteCommand) : M PasteCommand :=
  producer <- findProducer_ (PasteCommand_m_producerUuid this);;
  Q_ASSERT producer_is_valid (is_valid producer);;
  (* Remove all filters *)
  modify (λ w, on_producer producer
                 (λ p, set_filters (λ fs, <[p := remove_all w (fs p)]> fs)) w);;
  (* Restore the "before" filters *)
  let filtersProducer := xml_string_producer (PasteCommand_m_beforeXml this) in
  paste_if_any producer filtersProducer;;
  emit_filtersPasted producer;;
  ret this.

End PasteCommand.

Definition UndoParameterCommand_redo (this : UndoParameterCommand) : M UndoParameterCommand :=
  if UndoParameterCommand_m_firstRedo this then
    ret {| UndoParameterCommand_text := UndoParameterCommand_text this;
           UndoParameterCommand_m_filterController :=
             UndoParameterCommand_m_filterController this;
           UndoParameterCommand_m_row := UndoParameterCommand_m_row this;
           UndoParameterCommand_m_producerUuid := UndoParameterCommand_m_producerUuid this;
           UndoParameterCommand_m_before := UndoParameterCommand_m_before this;
           UndoParameterCommand_m_after := UndoParameterCommand_m_after this;
           UndoParameterCommand_m_firstRedo := false |}
  else
    producer <- findProducer_ (UndoParameterCommand_m_producerUuid this);;
    Q_ASSERT producer_is_valid (is_valid producer);;
    (if is_valid producer && is_valid (UndoParameterCommand_m_filterController this)
     then
       service <- doGetService producer (UndoParameterCommand_m_row this);;
       Service_inherit service (UndoParameterCommand_m_after this);;
       onUndoOrRedo service
     else ret ());;
    ret this.

Definition UndoParameterCommand_undo (this : UndoParameterCommand) : M UndoParameterCommand :=
  producer <- findProducer_ (UndoParameterCommand_m_producerUuid this);;
  Q_ASSERT producer_is_valid (is_valid producer);;
  (if is_valid producer && is_valid (UndoParameterCommand_m_filterController this)
   then
     service <- doGetService producer (UndoParameterCommand_m_row this);;
     Service_inherit service (UndoParameterCommand_m_before this);;
     onUndoOrRedo service
   else ret ());;
  ret this.

(** The virtual [QUndoCommand::redo()] and [undo()]. *)
Definition redo `{!MltEngine} (c : QUndoCommand) : M QUndoCommand :=
  match c with
  | an_AddCommand c => c' <- AddCommand_redo c;; ret (an_AddCommand c')
  | a_RemoveCommand c => c' <- RemoveCommand_redo c;; ret (a_RemoveCommand c')
  | a_MoveCommand c => c' <- MoveCommand_redo c;; ret (a_MoveCommand c')
  | a_DisableCommand c => c' <- DisableCommand_redo c;; ret (a_DisableCommand c')
  | a_PasteCommand c => c' <- PasteCommand_redo c;; ret (a_PasteCommand c')
  | an_UndoParameterCommand c =>
      c' <- UndoParameterCommand_redo c;; ret (an_UndoParameterCommand c')
  end.

Definition undo `{!MltEngine} (c : QUndoCommand) : M QUndoCommand :=
  match c with
  | an_AddCommand c => c' <- AddCommand_undo c;; ret (an_AddCommand c')
  | a_RemoveCommand c => c' <- RemoveCommand_undo c;; ret (a_RemoveCommand c')
  | a_MoveCommand c => c' <- MoveCommand_undo c;; ret (a_MoveCommand c')
  | a_DisableCommand c => c' <- DisableCommand_undo c;; ret (a_DisableCommand c')
  | a_PasteCommand c => c' <- PasteCommand_undo c;; ret (a_PasteCommand c')
  | an_UndoParameterCommand c =>
      c' <- UndoParameterCommand_undo c;; ret (an_UndoParameterCommand c')
  end.

End QT_NO_DEBUG.

(** ** A target that cannot be resolved, by build *)





(** ** What the further properties speak of *)


(** [m_producerUuid] *)
Definition producerUuid (c : QUndoCommand) : QUuid :=
  match c with
  | an_AddCommand c => AddCommand_m_producerUuid c
  | a_RemoveCommand c => RemoveCommand_m_producerUuid c
  | a_MoveCommand c => MoveCommand_m_producerUuid c
  | a_DisableCommand c => DisableCommand_m_producerUuid c
  | a_PasteCommand c => PasteCommand_m_producerUuid c
  | an_UndoParameterCommand c => UndoParameterCommand_m_producerUuid c
  end.

(** [m_producer = Mlt::Producer()] *)
Definition RemoveCommand_released (this : RemoveCommand) : RemoveCommand :=
  {| RemoveCommand_text := RemoveCommand_text this;
     RemoveCommand_m_row := RemoveCommand_m_row this;
     RemoveCommand_m_producer := None;
     RemoveCommand_m_producerUuid := RemoveCommand_m_producerUuid this;
     RemoveCommand_m_service := RemoveCommand_m_service this |}.

(** [m_producer = Mlt::Producer()] when it was valid. *)
Definition MoveCommand_released (this : MoveCommand) : MoveCommand :=
  if is_valid (MoveCommand_m_producer this)
  then {| MoveCommand_text := MoveCommand_text this;
          MoveCommand_m_fromRow := MoveCommand_m_fromRow this;
          MoveCommand_m_toRow := MoveCommand_m_toRow this;
          MoveCommand_m_producer := None;
          MoveCommand_m_producerUuid := MoveCommand_m_producerUuid this |}
  else this.

(** The invariant of an [AddCommand]: one service per row, and at least one
    row (so that [m_rows[0]] and [front()] are defined). *)
Definition AddCommand_wf (this : AddCommand) : Prop :=
  length (AddCommand_m_rows this) = length (AddCommand_m_services this)
  ∧ AddCommand_m_rows this ≠ [].

(** What the history does with a run of commands offered to the command on
    top: each is offered to [mergeWith] in turn. *)
Definition AddCommand_absorb (this : AddCommand) (others : list AddCommand) : AddCommand :=
  foldl (λ top that, (AddCommand_mergeWith top (Some (an_AddCommand that))).2) this others.

Definition UndoParameterCommand_absorb (this : UndoParameterCommand)
    (others : list UndoParameterCommand) : UndoParameterCommand :=
  foldl (λ top that, (UndoParameterCommand_mergeWith top (an_UndoParameterCommand that)).2)
    this others.

(** Two parameter changes that [mergeWith] takes for one edit. *)
Definition same_edit (this that : UndoParameterCommand) : Prop :=
  UndoParameterCommand_m_row that = UndoParameterCommand_m_row this
  ∧ UndoParameterCommand_m_producerUuid that = UndoParameterCommand_m_producerUuid this
  ∧ UndoParameterCommand_text that = UndoParameterCommand_text this.

(** *** [UndoParameterCommand::update] *)

(** Modelled from the spec: [Mlt::Properties::pass_property] belongs to the
    MLT library; the specification has [update] capture the current value
    of the one property into the "after" snapshot.  A property the service
    does not have leaves the snapshot as it is. *)
Definition pass_property (self that : gmap string string) (name : string)
  : gmap string string :=
  match that !! name with
  | Some value => <[name := value]> self
  | None => self
  end.

(** [update(propertyName)]; [producer] is
    [m_filterController->attachedModel()->producer()], whose filter at
    [m_row] is [getService(m_row)]. *)
Definition UndoParameterCommand_update (w : World) (producer : Producer)
    (this : UndoParameterCommand) (propertyName : QString) : UndoParameterCommand :=
  let service := p ← producer; chain_get (UndoParameterCommand_m_row this) (filters w p) in
  {| UndoParameterCommand_text := UndoParameterCommand_text this;
     UndoParameterCommand_m_filterController := UndoParameterCommand_m_filterController this;
     UndoParameterCommand_m_row := UndoParameterCommand_m_row this;
     UndoParameterCommand_m_producerUuid := UndoParameterCommand_m_producerUuid this;
     UndoParameterCommand_m_before := UndoParameterCommand_m_before this;
     UndoParameterCommand_m_after :=
       pass_property (UndoParameterCommand_m_after this) (service_properties w service)
         propertyName;
     UndoParameterCommand_m_firstRedo := UndoParameterCommand_m_firstRedo this |}.

(** More of the small project: removing the filter [12] at row [1] of the
    clip [4], and moving the filter at row [0] to row [2]. *)
Definition demo_remove : RemoveCommand :=
  RemoveCommand_new (Some 4%positive) 42%N "Blur" (Some 12%positive) 1.

Definition demo_move : MoveCommand :=
  MoveCommand_new (Some 4%positive) 42%N "Blur" 0 2.


(** The small project with the radius of the filter [13] set to [1]. *)
Definition demo_world_radius : World :=
  set_properties (λ ps, <[13%positive := {[ "radius" := "1" ]}]> ps) demo_world.

(** The parameter change as its constructor builds it for the filter at row
    [2] of the clip [4], from the snapshot taken before the edit. *)
Definition demo_change_new : UndoParameterCommand :=
  UndoParameterCommand_new demo_world_radius (Some 4%positive) 42%N "Blur" 50%positive 2
    {[ "radius" := "0" ]} EmptyString.

(** The small project after the user has set the radius to [5]. *)
Definition demo_world_dragged : World :=
  set_properties (λ ps, <[13%positive := {[ "radius" := "5" ]}]> ps) demo_world.

(** The small project with a level on the filter [13] besides its radius. *)
Definition demo_world_level (level : string) : World :=
  set_properties (λ ps, <[13%positive := {[ "radius" := "1"; "level" := level ]}]> ps)
    demo_world.

(** Two edits of the filter at row [2] of the clip [4], which had the radius
    only: the first gives it a level of [4], the second a level of [5].
    Each command is as its constructor builds it, from the properties the
    filter had before the edit, and has been through its first [redo]. *)
Definition demo_level_first : UndoParameterCommand :=
  UndoParameterCommand_redone
    (UndoParameterCommand_new (demo_world_level "4") (Some 4%positive) 42%N "Blur" 50%positive
       2 (properties demo_world_radius 13%positive) EmptyString).

Definition demo_level_second : UndoParameterCommand :=
  UndoParameterCommand_redone
    (UndoParameterCommand_new (demo_world_level "5") (Some 4%positive) 42%N "Blur" 50%positive
       2 (properties (demo_world_level "4") 13%positive) EmptyString).

(** * Properties *)

(** ** The lookup *)

(** Induction on a composition graph, with the property known for every
    contained service. *)
Lemma Service_nested_ind (P : Service → Prop) :
  (∀ t p kids, Forall P kids → P (mkService t p kids)) → ∀ s, P s.
Proof.
  intros step. fix rec 1. intros [t p kids]. apply step.
  induction kids as [|c kids IHkids]; constructor; [apply rec | exact IHkids].
Qed.

Lemma find_app_first {A} (f : A → bool) (l1 l2 : list A) :
  find f (l1 ++ l2) = match find f l1 with Some x => Some x | None => find f l2 end.
Proof.
  induction l1 as [|a l1 IH]; simpl; [done|]. destruct (f a); [done | exact IH].
Qed.

Lemma find_None_Forall {A} (f : A → bool) (l : list A) :
  find f l = None ↔ Forall (λ x, f x = false) l.
Proof.
  induction l as [|a l IH]; simpl.
  - split; [constructor | done].
  - destruct (f a) eqn:Ha.
    + split; [done | intros H; inversion H; congruence].
    + rewrite IH. split; [by constructor | by inversion 1].
Qed.

Lemma find_Some_split {A} (f : A → bool) (l : list A) (x : A) :
  find f l = Some x →
  ∃ before after, l = before ++ x :: after
                  ∧ Forall (λ y, f y = false) before ∧ f x = true.
Proof.
  induction l as [|a l IH]; simpl; [done|].
  destruct (f a) eqn:Ha.
  - intros [= <-]. exists [], l. by repeat split.
  - intros Hx. destruct (IH Hx) as (before & after & -> & Hb & Hfx).
    exists (a :: before), after. repeat split; [by constructor | done].
Qed.

Section FindProducerParser_facts.
Variable w : World.
Variable uuid : QUuid.

#[local] Existing Instance FindProducerParser_Parser.

Lemma and_then_return0_r (f : FindProducerParser → Z * FindProducerParser) gp :
  and_then f fpp_return0 gp = f gp.
Proof.
  unfold and_then, fpp_return0. destruct (f gp) as [e gp'].
  destruct (e =? 0) eqn:He; [|done]. by apply Z.eqb_eq in He as ->.
Qed.

Lemma and_then_return0_l (g : FindProducerParser → Z * FindProducerParser) gp :
  and_then fpp_return0 g gp = g gp.
Proof. done. Qed.

Lemma and_then_outcome_of f g gp hit :
  f gp = outcome_of uuid gp hit →
  and_then f g gp = match hit with Some n => (1, found uuid n.2) | None => g gp end.
Proof. unfold and_then. intros ->. by destruct hit. Qed.

Lemma visit_filters_FindProducerParser (fs : list handle) gp :
  visit_filters (Parser0 := FindProducerParser_Parser (MLT_uuid w)) fs gp = (0, gp).
Proof.
  revert gp. induction fs as [|f fs IH]; intros gp; simpl; [done|].
  unfold and_then at 1. unfold visit_filter. simpl. apply IH.
Qed.

Lemma on_start_FindProducerParser t p gp :
  fpp_uuid gp = uuid →
  on_start (Parser0 := FindProducerParser_Parser (MLT_uuid w)) t p gp
  = outcome_of uuid gp (if is_match w uuid (t, p) then Some (t, p) else None).
Proof.
  intros Hu. unfold is_match; simpl.
  destruct t; simpl; unfold fpp_on_start_producer, fpp_return0; rewrite ?Hu;
    by destruct (MLT_uuid w p =? uuid)%N.
Qed.

Lemma on_end_FindProducerParser t p gp :
  on_end (Parser0 := FindProducerParser_Parser (MLT_uuid w)) t p gp = (0, gp).
Proof. by destruct t. Qed.

(** The traversal of one root stops with code [1] at the first node, in
    pre-order, that carries the identifier, and leaves the parser object as
    it was, with code [0], when there is none. *)
Lemma Parser_start_first_match (s : Service) :
  ∀ gp, fpp_uuid gp = uuid →
    Parser_start (Parser0 := FindProducerParser_Parser (MLT_uuid w)) (filters w) s gp
    = outcome_of uuid gp (find (is_match w uuid) (preorder s)).
Proof.
  induction s as [t p kids IH] using Service_nested_ind. intros gp Hu.
  cbn [Parser_start preorder find].
  rewrite (and_then_outcome_of _ _ _ _ (on_start_FindProducerParser t p gp Hu)).
  destruct (is_match w uuid (t, p)); [done|].
  match goal with |- and_then ?f _ _ = _ => 
    rewrite (and_then_outcome_of f _ gp (find (is_match w uuid) (flat_map preorder kids))) end.
  - destruct (find _ (flat_map _ _)); [done|].
    unfold and_then at 1. rewrite visit_filters_FindProducerParser. simpl.
    apply on_end_FindProducerParser.
  - clear -IH Hu. induction IH as [|c kids Hc _ IHkids]; [done|].
    cbn [flat_map]. rewrite find_app_first.
    match goal with |- and_then ?f _ _ = _ => 
      rewrite (and_then_outcome_of f _ gp (find (is_match w uuid) (preorder c))) end.
    + destruct (find _ (preorder c)); [done | exact IHkids].
    + destruct t; try exact (Hc gp Hu).
      rewrite and_then_return0_l, and_then_return0_r. exact (Hc gp Hu).
Qed.

Lemma search_locate_in (root : option Service) gp :
  fpp_uuid gp = uuid → fpp_producer gp = None →
  search w root gp = match root ≫= locate_in w uuid with
                     | Some p => inl (Some p)
                     | None => inr gp
                     end.
Proof.
  intros Hu Hp. destruct root as [r|]; [|done]. simpl.
  unfold graphParser_start, locate_in. rewrite Parser_start_first_match by done.
  unfold FindProducerParser_producer.
  destruct (find _ _) as [[t p]|]; simpl; [done|]. by rewrite Hp.
Qed.
End FindProducerParser_facts.

(** The guards of [findProducer] select the roots of the specification. *)
Lemma roots_guards (w : World) :
  roots w
  = option_list (MAIN_multitrack w) ++ option_list (playlist_root w)
      ++ option_list (clip_root w).
Proof.
  unfold roots, playlist_root, clip_root, count.
  destruct (MAIN_multitrack w) as [timeline|];
    (destruct (MAIN_playlist w) as [bin|]; [destruct (children bin)|]);
    by destruct (if MLT_isClip w then MLT_producer w else MLT_savedProducer w).
Qed.

(** [findProducer] is the lookup of the specification. *)
Lemma findProducer_locate (w : World) (uuid : QUuid) :
  findProducer w uuid = locate w uuid.
Proof.
  unfold findProducer, locate. rewrite roots_guards.
  set (gp := FindProducerParser_new uuid).
  rewrite (search_locate_in w uuid (MAIN_multitrack w) gp) by done.
  destruct (MAIN_multitrack w) as [r1|]; simpl;
    [destruct (locate_in w uuid r1); simpl; [done|] |];
    (rewrite (search_locate_in w uuid (playlist_root w) gp) by done;
     destruct (playlist_root w) as [r2|]; simpl;
       [destruct (locate_in w uuid r2); simpl; [done|] |];
       (rewrite (search_locate_in w uuid (clip_root w) gp) by done;
        destruct (clip_root w) as [r3|]; simpl;
          [by destruct (locate_in w uuid r3) | done])).
Qed.

Lemma head_omap_Some {A B} (f : A → option B) (l : list A) (b : B) :
  head (omap f l) = Some b →
  ∃ earlier x later, l = earlier ++ x :: later
                     ∧ Forall (λ y, f y = None) earlier ∧ f x = Some b.
Proof.
  induction l as [|a l IH]; simpl; [done|].
  destruct (f a) as [b'|] eqn:Ha; simpl.
  - intros [= <-]. exists [], a, l. by repeat split.
  - intros Hb. destruct (IH Hb) as (earlier & x & later & -> & He & Hx).
    exists (a :: earlier), x, later. repeat split; [by constructor | done].
Qed.

Lemma head_omap_None {A B} (f : A → option B) (l : list A) :
  head (omap f l) = None → Forall (λ y, f y = None) l.
Proof.
  induction l as [|a l IH]; simpl; [constructor|].
  destruct (f a) eqn:Ha; simpl; [done|]. intros Hl. constructor; auto.
Qed.

(** C1, as the code has it.  [findProducer] tries the roots in the fixed
    order timeline (if valid), bin (if it holds an entry), standalone clip
    (if valid); each root is traversed depth-first in pre-order, and the
    identifier of every visited producer, playlist, tractor and chain is
    compared with the target, while a multitrack, filter, transition or
    link is visited without comparison; the result is the first match of
    the first root that has one (no earlier root has a match, no earlier
    node of that root matches), and the invalid producer exactly when no
    root holds a producer, playlist, tractor or chain with the identifier.
    The traversal of a root ends with code [1] and the first matching node
    in the parser, or with code [0] and the parser as it was. *)
Theorem findProducer_first_root_first_match (w : World) (uuid : QUuid) :
  findProducer w uuid = head (omap (locate_in w uuid) (roots w))
  ∧ match findProducer w uuid with
    | Some p =>
        ∃ earlier root later before t after,
          roots w = earlier ++ root :: later
          ∧ Forall (λ r, locate_in w uuid r = None) earlier
          ∧ preorder root = before ++ (t, p) :: after
          ∧ Forall (λ n, is_match w uuid n = false) before
          ∧ is_node t = true
          ∧ MLT_uuid w p = uuid
    | None =>
        ∀ root t p, root ∈ roots w → (t, p) ∈ preorder root → is_node t = true →
                    MLT_uuid w p ≠ uuid
    end
  ∧ ∀ root,
      Parser_start (Parser0 := FindProducerParser_Parser (MLT_uuid w)) (filters w) root
        (FindProducerParser_new uuid)
      = match find (is_match w uuid) (preorder root) with
        | Some n => (1, found uuid n.2)
        | None => (0, FindProducerParser_new uuid)
        end.
Proof.
  split; [apply findProducer_locate|].
  split; [|intros root; by apply Parser_start_first_match].
  rewrite findProducer_locate. unfold locate.
  destruct (head (omap (locate_in w uuid) (roots w))) as [p|] eqn:Hhead.
  - apply head_omap_Some in Hhead as (earlier & root & later & Hroots & Hearlier & Hroot).
    unfold locate_in in Hroot.
    destruct (find (is_match w uuid) (preorder root)) as [[t p']|] eqn:Hfind; [|done].
    simpl in Hroot. injection Hroot as ->.
    apply find_Some_split in Hfind as (before & after & Hpre & Hbefore & Hp).
    unfold is_match in Hp. apply andb_prop in Hp as [Hnode Huuid].
    apply N.eqb_eq in Huuid.
    by exists earlier, root, later, before, t, after.
  - apply head_omap_None in Hhead. intros root t p Hroot Hn Hnode Huuid.
    rewrite Forall_forall in Hhead. specialize (Hhead root Hroot).
    unfold locate_in in Hhead.
    destruct (find (is_match w uuid) (preorder root)) eqn:Hfind; [done|].
    apply find_None_Forall in Hfind. rewrite Forall_forall in Hfind.
    specialize (Hfind (t, p) Hn). unfold is_match in Hfind. simpl in Hfind.
    by rewrite Hnode, Huuid, N.eqb_refl in Hfind.
Qed.

(** The identifier [43] is carried by the clip [7] of the bin and by the
    saved clip [8], and by nothing in the timeline: the lookup falls through
    the timeline and stops in the bin. *)
Lemma findProducer_first_root_first_match_witness :
  findProducer demo_world 43%N = Some 7%positive.
Proof.
  rewrite (proj1 (findProducer_first_root_first_match demo_world 43%N)). reflexivity.
Defined.

(** C1, as it is worded, fails for a visited service that is not a
    producer, playlist, tractor or chain: the multitrack [2] is below the
    timeline, which is a root, and carries the identifier [44], yet the
    lookup of [44] finds nothing. *)
Lemma findProducer_multitrack_not_compared :
  demo_timeline ∈ roots demo_world
  ∧ (mlt_service_multitrack_type, 2%positive) ∈ preorder demo_timeline
  ∧ MLT_uuid demo_world 2%positive = 44%N
  ∧ findProducer demo_world 44%N = None.
Proof.
  split; [apply list_elem_of_here|].
  split; [cbn; repeat (apply list_elem_of_here || apply list_elem_of_further)|].
  split; reflexivity.
Qed.

(** The lookup on the small project: the clip of the timeline, and the clip
    of the playlist rather than the saved clip with the same identifier. *)
Example findProducer_demo_timeline : findProducer demo_world 42%N = Some 4%positive.
Proof. reflexivity. Qed.

Example findProducer_demo_playlist_first : findProducer demo_world 43%N = Some 7%positive.
Proof. reflexivity. Qed.

(** ** Worlds and steps *)

Lemma same_graph_refl w : same_graph w w.
Proof. by repeat split. Qed.

Lemma same_graph_trans w1 w2 w3 :
  same_graph w1 w2 → same_graph w2 w3 → same_graph w1 w3.
Proof.
  intros (?&?&?&?&?&?) (?&?&?&?&?&?). repeat split; congruence.
Qed.

(** A lookup reads the roots and the identifiers only. *)
Lemma findProducer_same_graph w w' uuid :
  same_graph w w' → findProducer w' uuid = findProducer w uuid.
Proof.
  intros (Hm & Hp & Hc & Hpr & Hs & Hu). rewrite !findProducer_locate.
  unfold locate, roots, locate_in, is_match.
  by rewrite Hm, Hp, Hc, Hpr, Hs, Hu.
Qed.

Lemma chain_step_same_graph p s w : same_graph w (chain_step p s w).
Proof. by repeat split. Qed.

Lemma run_steps_same_graph p steps w : same_graph w (run_steps p steps w).
Proof.
  revert w. induction steps as [|s steps IH]; intros w; [apply same_graph_refl|].
  eapply same_graph_trans; [apply (chain_step_same_graph p s) | apply IH].
Qed.

Lemma run_steps_filters p steps w :
  filters (run_steps p steps w) p = foldl (λ c s, s.2 c) (filters w p) steps.
Proof.
  revert w. induction steps as [|s steps IH]; intros w; [done|].
  simpl. rewrite IH. simpl. by rewrite fn_lookup_insert.
Qed.

Lemma run_steps_filters_ne p q steps w :
  p ≠ q → filters (run_steps p steps w) q = filters w q.
Proof.
  intros Hpq. revert w. induction steps as [|s steps IH]; intros w; [done|].
  simpl. rewrite IH. simpl. by rewrite fn_lookup_insert_ne.
Qed.

Lemma run_steps_calls p steps w :
  calls (run_steps p steps w) = calls w ++ steps.*1.
Proof.
  revert w. induction steps as [|s steps IH]; intros w; simpl.
  - by rewrite app_nil_r.
  - rewrite IH. simpl. by rewrite <- app_assoc.
Qed.

Lemma run_steps_properties p steps w :
  properties (run_steps p steps w) = properties w
  ∧ disabled (run_steps p steps w) = disabled w.
Proof.
  revert w. induction steps as [|s steps IH]; intros w; [done|].
  simpl. by destruct (IH (chain_step p s w)) as [-> ->].
Qed.

(** A loop whose body is a plain state change runs to its end. *)
Lemma for_each_steps (indices : list nat) (body : nat → M unit) (f : nat → World → World) w :
  (∀ i w, body i w = Done () (f i w)) →
  for_each indices body w = Done () (foldl (λ w i, f i w) w indices).
Proof.
  intros Hbody. revert w. induction indices as [|i indices IH]; intros w; [done|].
  simpl. unfold bind. rewrite Hbody. apply IH.
Qed.

(** Reading two lists of one length by index is reading their [zip]. *)
Lemma index_pairs {A B} `{!Inhabited A, !Inhabited B} (l : list A) (k : list B) :
  length l = length k →
  (λ i, (l !!! i, k !!! i)) <$> seq 0 (length l) = zip l k.
Proof.
  revert k. induction l as [|a l IH]; intros [|b k] Hlen; simplify_eq/=; [done|].
  f_equal. rewrite <- fmap_S_seq, <- list_fmap_compose. by apply IH.
Qed.

Lemma index_rows `{!Inhabited A} (l : list A) :
  (λ i, l !!! i) <$> seq 0 (length l) = l.
Proof.
  induction l as [|a l IH]; [done|]. simpl. f_equal.
  rewrite <- fmap_S_seq, <- list_fmap_compose. exact IH.
Qed.

(** ** Chains *)

Lemma index_lt_Some row n i :
  index_lt row n = Some i ↔ 0 ≤ row ∧ row < Z.of_nat n ∧ i = Z.to_nat row.
Proof.
  unfold index_lt. destruct (0 <=? row) eqn:H0; destruct (row <? Z.of_nat n) eqn:H1; simpl;
    split; try done; try (intros [= <-]; lia); try (intros (?&?&->); done); lia.
Qed.

Lemma index_lt_None row n :
  index_lt row n = None ↔ row < 0 ∨ Z.of_nat n ≤ row.
Proof.
  unfold index_lt. destruct (0 <=? row) eqn:H0; destruct (row <? Z.of_nat n) eqn:H1; simpl;
    split; try done; lia.
Qed.

Lemma chain_add_in_range s row chain :
  0 ≤ row ≤ Z.of_nat (length chain) →
  chain_add (Some s) row chain
  = take (Z.to_nat row) chain ++ s :: drop (Z.to_nat row) chain.
Proof.
  intros Hrow. unfold chain_add.
  destruct (index_lt row (S (length chain))) as [i|] eqn:Hi.
  - apply index_lt_Some in Hi as (_ & _ & ->). done.
  - apply index_lt_None in Hi. lia.
Qed.

(** An inserted filter sits at its row, and the chain is one longer. *)
Lemma chain_add_lookup s row chain :
  0 ≤ row ≤ Z.of_nat (length chain) →
  chain_add (Some s) row chain !! Z.to_nat row = Some s
  ∧ length (chain_add (Some s) row chain) = S (length chain).
Proof.
  intros Hrow. rewrite chain_add_in_range by done. split.
  - apply list_lookup_middle. rewrite length_take. lia.
  - rewrite length_app, length_take. simpl. rewrite length_drop. lia.
Qed.

(** Removing at the row of the insertion undoes it. *)
Lemma chain_remove_add s row chain :
  0 ≤ row ≤ Z.of_nat (length chain) →
  chain_remove row (chain_add (Some s) row chain) = chain.
Proof.
  intros Hrow. unfold chain_remove.
  destruct (chain_add_lookup s row chain Hrow) as [_ Hlen]. rewrite Hlen.
  destruct (index_lt row (S (length chain))) as [i|] eqn:Hi.
  - apply index_lt_Some in Hi as (_ & _ & ->).
    rewrite chain_add_in_range by done.
    assert (Z.to_nat row = length (take (Z.to_nat row) chain)) as Hi.
    { rewrite length_take. lia. }
    rewrite Hi at 1. rewrite delete_middle. apply take_drop.
  - apply index_lt_None in Hi. lia.
Qed.

Lemma insertable_cons row service rest n :
  insertable ((row, service) :: rest) n = true →
  (∃ s, service = Some s) ∧ 0 ≤ row ≤ Z.of_nat n ∧ insertable rest (S n) = true.
Proof.
  simpl. rewrite !andb_true_iff. intros [[[Hs H0] H1] Hrest].
  destruct service as [s|]; [|done]. split; [by exists s|]. split; [lia | done].
Qed.

Lemma insert_all_length pairs chain :
  insertable pairs (length chain) = true →
  length (insert_all pairs chain) = (length chain + length pairs)%nat.
Proof.
  revert chain. induction pairs as [|[row service] rest IH]; intros chain Hok.
  - simpl. lia.
  - apply insertable_cons in Hok as ([s ->] & Hrow & Hrest).
    destruct (chain_add_lookup s row chain Hrow) as [_ Hlen].
    unfold insert_all in *. cbn [foldl fst snd length]. rewrite IH; rewrite Hlen; [lia | done].
Qed.

(** Removing at the rows in reverse order undoes the insertions. *)
Lemma remove_rows_insert_all pairs chain :
  insertable pairs (length chain) = true →
  remove_rows (reverse pairs.*1) (insert_all pairs chain) = chain.
Proof.
  unfold remove_rows.
  revert chain. induction pairs as [|[row service] rest IH]; intros chain Hok; [done|].
  apply insertable_cons in Hok as ([s ->] & Hrow & Hrest).
  destruct (chain_add_lookup s row chain Hrow) as [_ Hlen].
  cbn [fmap list_fmap fst]. rewrite reverse_cons, foldl_app.
  cbn [foldl]. unfold insert_all. cbn [foldl fst snd].
  fold (insert_all rest (chain_add (Some s) row chain)).
  rewrite IH by (by rewrite Hlen). by apply chain_remove_add.
Qed.

(** Each service sits at its row once it is inserted. *)
Lemma insert_all_at_row pairs chain (i : nat) row s :
  insertable pairs (length chain) = true →
  pairs !! i = Some (row, Some s) →
  insert_all (take (S i) pairs) chain !! Z.to_nat row = Some s.
Proof.
  revert chain i. induction pairs as [|[row' service] rest IH]; intros chain i Hok Hi; [done|].
  apply insertable_cons in Hok as ([s' ->] & Hrow & Hrest).
  destruct (chain_add_lookup s' row' chain Hrow) as [Hat Hlen].
  destruct i as [|i]; simpl in Hi.
  - injection Hi as -> ->. done.
  - unfold insert_all. cbn [take foldl fst snd]. apply IH; [by rewrite Hlen | done].
Qed.

(** ** [AddCommand] *)

Ltac run :=
  unfold findProducer_, filter_count; unfold bind, ret, gets, modify, Q_ASSERT; cbv beta.

Lemma doAddService_step p service row w :
  doAddService (Some p) service row w
  = Done () (chain_step p (doAddService_call (Some p) service row, chain_add service row) w).
Proof. done. Qed.

Lemma doRemoveService_step p row w :
  (_ <- doRemoveService (Some p) row;; ret ()) w
  = Done () (chain_step p (doRemoveService_call (Some p) row, chain_remove row) w).
Proof. done. Qed.

Lemma AddCommand_redo_resolved this w p :
  length (AddCommand_m_rows this) = length (AddCommand_m_services this) →
  AddCommand_target this w = Some p →
  AddCommand_redo this w = Done (AddCommand_released this) (AddCommand_redo_world p this w).
Proof.
  intros Hlen Htarget. unfold AddCommand_redo.
  assert ((if negb (is_valid (AddCommand_m_producer this))
           then findProducer_ (AddCommand_m_producerUuid this)
           else ret (AddCommand_m_producer this)) w = Done (Some p) w) as Hresolve.
  { unfold AddCommand_target, held_or_found in Htarget.
    destruct (AddCommand_m_producer this); simpl in *; run; by rewrite Htarget. }
  unfold bind at 1. rewrite Hresolve. run. cbn [is_valid].
  rewrite (for_each_steps _ _
             (λ i, chain_step p
                     (doAddService_call (Some p) (AddCommand_m_services this !!! i)
                        (AddCommand_m_rows this !!! i),
                      chain_add (AddCommand_m_services this !!! i)
                        (AddCommand_m_rows this !!! i)))) by done.
  unfold AddCommand_redo_world, run_steps, add_steps, AddCommand_pairs.
  rewrite <- (index_pairs (AddCommand_m_rows this) (AddCommand_m_services this)) by done.
  rewrite <- list_fmap_compose, foldl_fmap.
  by destruct (AddType_eqb AddSetLast (AddCommand_m_type this)).
Qed.

Lemma AddCommand_redo_unresolved this w :
  AddCommand_target this w = None →
  AddCommand_redo this w = AssertionFailed producer_is_valid w.
Proof.
  intros Htarget. unfold AddCommand_redo, AddCommand_target, held_or_found in *.
  destruct (AddCommand_m_producer this); [done|]. simpl in *. run. by rewrite Htarget.
Qed.

Lemma AddCommand_undo_resolved this w p :
  findProducer w (AddCommand_m_producerUuid this) = Some p →
  AddCommand_undo this w = Done this (AddCommand_undo_world p this w).
Proof.
  intros Hfind. unfold AddCommand_undo. run. rewrite Hfind. cbn [is_valid].
  rewrite (for_each_steps _ _
             (λ i, chain_step p
                     (doRemoveService_call (Some p) (AddCommand_m_rows this !!! i),
                      chain_remove (AddCommand_m_rows this !!! i)))) by done.
  unfold AddCommand_undo_world, run_steps, remove_steps.
  assert (reverse (AddCommand_m_rows this)
          = (λ i, AddCommand_m_rows this !!! i)
              <$> reverse (seq 0 (length (AddCommand_m_rows this)))) as ->.
  { by rewrite fmap_reverse, index_rows. }
  by rewrite <- list_fmap_compose, foldl_fmap.
Qed.

Lemma AddCommand_undo_unresolved this w :
  findProducer w (AddCommand_m_producerUuid this) = None →
  AddCommand_undo this w = AssertionFailed producer_is_valid w.
Proof. intros Hfind. unfold AddCommand_undo. run. by rewrite Hfind. Qed.

Lemma AddCommand_redo_world_same_graph p this w :
  same_graph w (AddCommand_redo_world p this w).
Proof.
  unfold AddCommand_redo_world. destruct (AddType_eqb _ _).
  - eapply same_graph_trans; [apply run_steps_same_graph | by repeat split].
  - apply run_steps_same_graph.
Qed.

Lemma AddCommand_redo_world_filters p this w :
  filters (AddCommand_redo_world p this w) p
  = insert_all (AddCommand_pairs this) (filters w p).
Proof.
  unfold AddCommand_redo_world.
  transitivity (filters (run_steps p (add_steps p (AddCommand_pairs this)) w) p).
  { by destruct (AddType_eqb _ _). }
  rewrite run_steps_filters. unfold add_steps, insert_all. by rewrite foldl_fmap.
Qed.

Lemma AddCommand_redo_world_calls p this w :
  calls (AddCommand_redo_world p this w)
  = calls w ++ add_calls p (AddCommand_pairs this)
      ++ (if AddType_eqb AddSetLast (AddCommand_m_type this)
          then [adjustFilters_call (Some p) (Z.of_nat (length (filters w p)))]
          else []).
Proof.
  unfold AddCommand_redo_world, add_calls, add_steps.
  destruct (AddType_eqb _ _); simpl; rewrite run_steps_calls, <- list_fmap_compose.
  - by rewrite <- app_assoc.
  - by rewrite app_nil_r.
Qed.

Lemma AddCommand_undo_world_filters p this w :
  filters (AddCommand_undo_world p this w) p
  = remove_rows (reverse (AddCommand_m_rows this)) (filters w p).
Proof.
  unfold AddCommand_undo_world. rewrite run_steps_filters.
  unfold remove_steps, remove_rows. by rewrite foldl_fmap.
Qed.

Lemma AddCommand_undo_world_calls p this w :
  calls (AddCommand_undo_world p this w)
  = calls w ++ remove_calls p (reverse (AddCommand_m_rows this)).
Proof.
  unfold AddCommand_undo_world, remove_calls, remove_steps.
  by rewrite run_steps_calls, <- list_fmap_compose.
Qed.

(** C2.  For an [AddCommand] whose target resolves to [p] and whose rows
    are attachment indices at the time of their insertion: [redo] calls
    [doAddService] for the services at their rows in index order, each
    service sitting at its row once inserted; [undo] calls
    [doRemoveService] at the rows in reverse order; after [redo] then [undo]
    the chain of [p] is the chain from before [redo], one filter shorter per
    inserted service than after [redo]; the direct reference is dropped by
    the first [redo], so that a further [redo] works on the producer the
    lookup by identifier returns, and inserts the same services at the same
    rows. *)
Theorem AddCommand_redo_undo_redo (this : AddCommand) (w : World) (p : handle) :
  length (AddCommand_m_rows this) = length (AddCommand_m_services this) →
  AddCommand_target this w = Some p →
  findProducer w (AddCommand_m_producerUuid this) = Some p →
  insertable (AddCommand_pairs this) (length (filters w p)) = true →
  ∃ w1 w2 w3 : World,
    AddCommand_redo this w = Done (AddCommand_released this) w1
    ∧ calls w1
      = calls w ++ add_calls p (AddCommand_pairs this)
          ++ (if AddType_eqb AddSetLast (AddCommand_m_type this)
              then [adjustFilters_call (Some p) (Z.of_nat (length (filters w p)))]
              else [])
    ∧ filters w1 p = insert_all (AddCommand_pairs this) (filters w p)
    ∧ (∀ (i : nat) row s,
         AddCommand_pairs this !! i = Some (row, Some s) →
         insert_all (take (S i) (AddCommand_pairs this)) (filters w p) !! Z.to_nat row
         = Some s)
    ∧ AddCommand_undo (AddCommand_released this) w1 = Done (AddCommand_released this) w2
    ∧ calls w2 = calls w1 ++ remove_calls p (reverse (AddCommand_m_rows this))
    ∧ filters w2 p = filters w p
    ∧ length (filters w1 p)
      = (length (filters w2 p) + length (AddCommand_m_services this))%nat
    ∧ AddCommand_m_producer (AddCommand_released this) = None
    ∧ (∀ w' q, findProducer w' (AddCommand_m_producerUuid this) = Some q →
               AddCommand_redo (AddCommand_released this) w'
               = Done (AddCommand_released this) (AddCommand_redo_world q this w'))
    ∧ AddCommand_redo (AddCommand_released this) w2 = Done (AddCommand_released this) w3
    ∧ filters w3 p = filters w1 p.
Proof.
  intros Hlen Htarget Hfind Hok.
  set (w1 := AddCommand_redo_world p this w).
  set (w2 := AddCommand_undo_world p (AddCommand_released this) w1).
  set (w3 := AddCommand_redo_world p this w2).
  assert (same_graph w w1) as Hg1 by apply AddCommand_redo_world_same_graph.
  assert (same_graph w1 w2) as Hg2 by apply run_steps_same_graph.
  assert (filters w1 p = insert_all (AddCommand_pairs this) (filters w p)) as Hw1
    by apply AddCommand_redo_world_filters.
  assert (filters w2 p = filters w p) as Hw2.
  { unfold w2. rewrite AddCommand_undo_world_filters, Hw1. simpl.
    replace (AddCommand_m_rows this) with (AddCommand_pairs this).*1
      by (by apply fst_zip; rewrite Hlen).
    by apply remove_rows_insert_all. }
  assert (∀ w' q, findProducer w' (AddCommand_m_producerUuid this) = Some q →
                  AddCommand_redo (AddCommand_released this) w'
                  = Done (AddCommand_released this) (AddCommand_redo_world q this w'))
    as Hagain.
  { intros w' q Hq. by rewrite (AddCommand_redo_resolved _ w' q). }
  exists w1, w2, w3. repeat split.
  - by apply AddCommand_redo_resolved.
  - apply AddCommand_redo_world_calls.
  - exact Hw1.
  - intros i row s Hi. by apply insert_all_at_row.
  - apply AddCommand_undo_resolved. simpl.
    by rewrite (findProducer_same_graph w w1).
  - exact (AddCommand_undo_world_calls p (AddCommand_released this) w1).
  - exact Hw2.
  - rewrite Hw1, Hw2, insert_all_length by done.
    unfold AddCommand_pairs. rewrite length_zip. lia.
  - exact Hagain.
  - apply Hagain.
    rewrite (findProducer_same_graph w1 w2), (findProducer_same_graph w w1); done.
  - unfold w3. rewrite AddCommand_redo_world_filters, Hw2, Hw1. done.
Qed.

(** The scenario of the specification: [Add(row = 2, filter = 20)] on the
    clip [4], which carries the identifier [42] and three filters. *)
Lemma AddCommand_redo_undo_redo_witness :
  ∃ w1 w2 w3 : World,
    AddCommand_redo demo_add demo_world = Done (AddCommand_released demo_add) w1
    ∧ filters w1 4%positive = [11; 12; 20; 13]%positive
    ∧ AddCommand_undo (AddCommand_released demo_add) w1
      = Done (AddCommand_released demo_add) w2
    ∧ filters w2 4%positive = [11; 12; 13]%positive
    ∧ AddCommand_redo (AddCommand_released demo_add) w2
      = Done (AddCommand_released demo_add) w3
    ∧ filters w3 4%positive = [11; 12; 20; 13]%positive.
Proof.
  destruct (AddCommand_redo_undo_redo demo_add demo_world 4%positive)
    as (w1 & w2 & w3 & Hredo & _ & Hw1 & _ & Hundo & _ & Hw2 & _ & _ & _ & Hredo2 & Hw3);
    [reflexivity | reflexivity | reflexivity | reflexivity |].
  exists w1, w2, w3. repeat split; try assumption.
  - rewrite Hw3. exact Hw1.
Defined.

Lemma AddType_eqb_eq a b : AddType_eqb a b = true ↔ a = b.
Proof. destruct a, b; simpl; split; congruence. Qed.

Lemma front_head {A} `{!Inhabited A} (l : list A) (x : A) : head l = Some x → l !!! 0%nat = x.
Proof. destruct l; simpl; congruence. Qed.

(** C5.  [AddCommand::mergeWith] accepts another [AddCommand] exactly when
    the receiver is of mode [AddSet] and the incoming command of mode
    [AddSet] or [AddSetLast]; an accepted merge appends the first row and
    service of the incoming command to the lists of the receiver and takes
    over its mode; a rejected one (an [AddSingle] offered to an [AddSet]
    receiver among them) leaves the receiver as it was.  The incoming
    command is only read. *)
Theorem AddCommand_mergeWith_set_members (this that : AddCommand) (row : Z)
    (service : MltService) :
  head (AddCommand_m_rows that) = Some row →
  head (AddCommand_m_services that) = Some service →
  ((AddCommand_mergeWith this (Some (an_AddCommand that))).1 = true
   ↔ AddCommand_m_type this = AddSet
     ∧ (AddCommand_m_type that = AddSet ∨ AddCommand_m_type that = AddSetLast))
  ∧ ((AddCommand_mergeWith this (Some (an_AddCommand that))).1 = true →
     (AddCommand_mergeWith this (Some (an_AddCommand that))).2
     = AddCommand_merged this (AddCommand_m_type that) row service)
  ∧ ((AddCommand_mergeWith this (Some (an_AddCommand that))).1 = false →
     (AddCommand_mergeWith this (Some (an_AddCommand that))).2 = this)
  ∧ (AddCommand_m_type that = AddSingle →
     AddCommand_mergeWith this (Some (an_AddCommand that)) = (false, this)).
Proof.
  intros Hrow Hservice. unfold AddCommand_mergeWith. cbn [id_ UndoId_eqb negb].
  rewrite (front_head _ _ Hrow), (front_head _ _ Hservice).
  destruct (AddCommand_m_type this) eqn:Hthis, (AddCommand_m_type that) eqn:Hthat;
    cbn; (split; [split; [done || (intros _; split; [done | auto]) | by intros [? [?|?]]] |]);
    repeat split; try done.
Qed.

(** Two members of a set merge, the second being the last. *)
Lemma AddCommand_mergeWith_set_members_witness :
  AddCommand_mergeWith demo_add_set (Some (an_AddCommand demo_add_set_last))
  = (true, AddCommand_merged demo_add_set AddSetLast 4 (Some 21%positive)).
Proof.
  destruct (AddCommand_mergeWith_set_members demo_add_set demo_add_set_last 4
              (Some 21%positive)) as (Hiff & Happend & _ & _);
    [reflexivity | reflexivity |].
  apply injective_projections; [reflexivity | exact (Happend eq_refl)].
Defined.

(** Commands of other kinds and the null pointer are turned down. *)
Lemma AddCommand_mergeWith_other_kind (this : AddCommand) (other : option QUndoCommand) :
  (∀ that, other ≠ Some (an_AddCommand that)) →
  AddCommand_mergeWith this other = (false, this).
Proof.
  intros Hother. destruct other as [[that| | | | |]|]; try done. by destruct (Hother that).
Qed.

(** The constructor and [mergeWith] keep one service per row, and at least
    one row. *)
Lemma AddCommand_new_rows producer uuid name service row type :
  AddCommand_m_rows (AddCommand_new producer uuid name service row type) = [row]
  ∧ AddCommand_m_services (AddCommand_new producer uuid name service row type) = [service].
Proof. done. Qed.

Lemma AddCommand_mergeWith_lengths (this : AddCommand) (other : option QUndoCommand) :
  length (AddCommand_m_rows this) = length (AddCommand_m_services this) →
  length (AddCommand_m_rows (AddCommand_mergeWith this other).2)
  = length (AddCommand_m_services (AddCommand_mergeWith this other).2).
Proof.
  intros Hlen. unfold AddCommand_mergeWith.
  destruct other as [[that| | | | |]|]; try done. cbn [id_ UndoId_eqb negb].
  destruct (_ || _); [done|]. cbn. rewrite !length_app, Hlen. done.
Qed.

Lemma adjusted_from_add_calls p pairs : adjusted_from (add_calls p pairs) = [].
Proof. induction pairs as [|rs pairs IH]; [done | exact IH]. Qed.


Lemma drop_calls {A} (l k : list A) : drop (length l) (l ++ k) = k.
Proof. by rewrite drop_app_length. Qed.




(** ** Resolution of the target, command by command *)

Lemma resolve_held_or_found held uuid w :
  (if negb (is_valid held) then findProducer_ uuid else ret held) w
  = Done (held_or_found held uuid w) w.
Proof. unfold held_or_found. by destruct held. Qed.

Lemma for_each_Done (indices : list nat) (body : nat → M unit) w :
  (∀ i w, ∃ w', body i w = Done () w') → ∃ w', for_each indices body w = Done () w'.
Proof.
  intros Hbody. revert w. induction indices as [|i indices IH]; intros w; [by exists w|].
  simpl. unfold bind. destruct (Hbody i w) as [w' ->]. apply IH.
Qed.

Lemma AddCommand_redo_Done this w p :
  AddCommand_target this w = Some p →
  ∃ w', AddCommand_redo this w = Done (AddCommand_released this) w'.
Proof.
  intros Htarget. unfold AddCommand_redo. unfold bind at 1.
  rewrite resolve_held_or_found. fold (AddCommand_target this w). rewrite Htarget.
  run. cbn [is_valid].
  destruct (for_each_Done (seq 0 (length (AddCommand_m_rows this)))
              (λ i, doAddService (Some p) (AddCommand_m_services this !!! i)
                      (AddCommand_m_rows this !!! i)) w) as [w' ->].
  { intros i w0. eexists. apply doAddService_step. }
  destruct (AddType_eqb _ _); eexists; reflexivity.
Qed.

Lemma RemoveCommand_redo_unresolved this w :
  held_or_found (RemoveCommand_m_producer this) (RemoveCommand_m_producerUuid this) w = None →
  RemoveCommand_redo this w = AssertionFailed producer_is_valid w.
Proof.
  intros Htarget. unfold RemoveCommand_redo. unfold bind at 1.
  rewrite resolve_held_or_found, Htarget. done.
Qed.

Lemma RemoveCommand_redo_Done this w p :
  held_or_found (RemoveCommand_m_producer this) (RemoveCommand_m_producerUuid this) w = Some p →
  ∃ c' w', RemoveCommand_redo this w = Done c' w'.
Proof.
  intros Htarget. unfold RemoveCommand_redo. unfold bind at 1.
  rewrite resolve_held_or_found, Htarget. eexists _, _. reflexivity.
Qed.

Lemma RemoveCommand_undo_unresolved this w :
  findProducer w (RemoveCommand_m_producerUuid this) = None →
  ∃ which, RemoveCommand_undo this w = AssertionFailed which w.
Proof.
  intros Hfind. unfold RemoveCommand_undo. run.
  destruct (is_valid (RemoveCommand_m_service this)); [|by eexists].
  rewrite Hfind. by eexists.
Qed.

Lemma RemoveCommand_undo_resolved this w p :
  findProducer w (RemoveCommand_m_producerUuid this) = Some p →
  (∃ w', RemoveCommand_undo this w = Done this w')
  ∨ RemoveCommand_undo this w = AssertionFailed service_is_valid w.
Proof.
  intros Hfind. unfold RemoveCommand_undo. run.
  destruct (is_valid (RemoveCommand_m_service this)); [|by right].
  rewrite Hfind. left. eexists. reflexivity.
Qed.

Lemma MoveCommand_redo_unresolved this w :
  held_or_found (MoveCommand_m_producer this) (MoveCommand_m_producerUuid this) w = None →
  MoveCommand_redo this w = AssertionFailed producer_is_valid w.
Proof.
  intros Htarget. unfold MoveCommand_redo. unfold bind at 1.
  rewrite resolve_held_or_found, Htarget. done.
Qed.

Lemma MoveCommand_redo_Done this w p :
  held_or_found (MoveCommand_m_producer this) (MoveCommand_m_producerUuid this) w = Some p →
  ∃ c' w', MoveCommand_redo this w = Done c' w'.
Proof.
  intros Htarget. unfold MoveCommand_redo. unfold bind at 1.
  rewrite resolve_held_or_found, Htarget. eexists _, _. reflexivity.
Qed.

Lemma MoveCommand_undo_unresolved this w :
  findProducer w (MoveCommand_m_producerUuid this) = None →
  MoveCommand_undo this w = AssertionFailed producer_is_valid w.
Proof. intros Hfind. unfold MoveCommand_undo. run. by rewrite Hfind. Qed.

Lemma MoveCommand_undo_Done this w p :
  findProducer w (MoveCommand_m_producerUuid this) = Some p →
  ∃ w', MoveCommand_undo this w = Done this w'.
Proof. intros Hfind. unfold MoveCommand_undo. run. rewrite Hfind. eexists. reflexivity. Qed.

Lemma DisableCommand_redo_unresolved this w :
  held_or_found (DisableCommand_m_producer this) (DisableCommand_m_producerUuid this) w = None →
  DisableCommand_redo this w = AssertionFailed producer_is_valid w.
Proof.
  intros Htarget. unfold DisableCommand_redo. unfold bind at 1.
  rewrite resolve_held_or_found, Htarget. done.
Qed.

Lemma DisableCommand_redo_resolved this w p :
  held_or_found (DisableCommand_m_producer this) (DisableCommand_m_producerUuid this) w = Some p →
  DisableCommand_redo this w
  = Done (DisableCommand_released this)
      (doSetDisabled_world p (DisableCommand_m_row this) (DisableCommand_m_disabled this) w).
Proof.
  intros Htarget. unfold DisableCommand_redo. unfold bind at 1.
  rewrite resolve_held_or_found, Htarget. done.
Qed.

Lemma DisableCommand_undo_unresolved this w :
  findProducer w (DisableCommand_m_producerUuid this) = None →
  DisableCommand_undo this w = AssertionFailed producer_is_valid w.
Proof. intros Hfind. unfold DisableCommand_undo. run. by rewrite Hfind. Qed.

Lemma DisableCommand_undo_resolved this w p :
  findProducer w (DisableCommand_m_producerUuid this) = Some p →
  DisableCommand_undo this w
  = Done this
      (doSetDisabled_world p (DisableCommand_m_row this)
         (negb (DisableCommand_m_disabled this)) w).
Proof. intros Hfind. unfold DisableCommand_undo. run. by rewrite Hfind. Qed.

Lemma UndoParameterCommand_first_redo this w :
  UndoParameterCommand_m_firstRedo this = true →
  UndoParameterCommand_redo this w = Done (UndoParameterCommand_redone this) w.
Proof. intros Hfirst. unfold UndoParameterCommand_redo. by rewrite Hfirst. Qed.

Lemma UndoParameterCommand_redo_unresolved this w :
  UndoParameterCommand_m_firstRedo this = false →
  findProducer w (UndoParameterCommand_m_producerUuid this) = None →
  UndoParameterCommand_redo this w = AssertionFailed producer_is_valid w.
Proof.
  intros Hfirst Hfind. unfold UndoParameterCommand_redo. rewrite Hfirst. run.
  by rewrite Hfind.
Qed.

Lemma UndoParameterCommand_redo_resolved this w p :
  UndoParameterCommand_m_firstRedo this = false →
  findProducer w (UndoParameterCommand_m_producerUuid this) = Some p →
  UndoParameterCommand_redo this w
  = Done this
      (if is_valid (UndoParameterCommand_m_filterController this)
       then inherit_world p (UndoParameterCommand_m_row this)
              (UndoParameterCommand_m_after this) w
       else w).
Proof.
  intros Hfirst Hfind. unfold UndoParameterCommand_redo. rewrite Hfirst. run.
  rewrite Hfind. cbn [is_valid andb].
  destruct (is_valid (UndoParameterCommand_m_filterController this)); [|done].
  unfold doGetService, Service_inherit, onUndoOrRedo, inherit_world. run. simpl.
  by destruct (chain_get _ _).
Qed.

Lemma UndoParameterCommand_undo_unresolved this w :
  findProducer w (UndoParameterCommand_m_producerUuid this) = None →
  UndoParameterCommand_undo this w = AssertionFailed producer_is_valid w.
Proof. intros Hfind. unfold UndoParameterCommand_undo. run. by rewrite Hfind. Qed.

Lemma UndoParameterCommand_undo_resolved this w p :
  findProducer w (UndoParameterCommand_m_producerUuid this) = Some p →
  UndoParameterCommand_undo this w
  = Done this
      (if is_valid (UndoParameterCommand_m_filterController this)
       then inherit_world p (UndoParameterCommand_m_row this)
              (UndoParameterCommand_m_before this) w
       else w).
Proof.
  intros Hfind. unfold UndoParameterCommand_undo. run.
  rewrite Hfind. cbn [is_valid andb].
  destruct (is_valid (UndoParameterCommand_m_filterController this)); [|done].
  unfold doGetService, Service_inherit, onUndoOrRedo, inherit_world. run. simpl.
  by destruct (chain_get _ _).
Qed.

(** ** [DisableCommand] *)

Lemma doSetDisabled_world_same_graph p row d w : same_graph w (doSetDisabled_world p row d w).
Proof. unfold doSetDisabled_world. by destruct (chain_get _ _); repeat split. Qed.

Lemma doSetDisabled_world_filters p row d w h :
  filters (doSetDisabled_world p row d w) h = filters w h.
Proof. unfold doSetDisabled_world. by destruct (chain_get _ _). Qed.

Lemma doSetDisabled_world_disabled p row d w f :
  chain_get row (filters w p) = Some f →
  disabled (doSetDisabled_world p row d w) f = d
  ∧ ∀ g, g ≠ f → disabled (doSetDisabled_world p row d w) g = disabled w g.
Proof.
  intros Hf. unfold doSetDisabled_world. rewrite Hf. simpl. split.
  - apply fn_lookup_insert.
  - intros g Hg. by apply fn_lookup_insert_ne.
Qed.

Lemma DisableCommand_released_fields this :
  DisableCommand_m_row (DisableCommand_released this) = DisableCommand_m_row this
  ∧ DisableCommand_m_producerUuid (DisableCommand_released this)
    = DisableCommand_m_producerUuid this
  ∧ DisableCommand_m_disabled (DisableCommand_released this) = DisableCommand_m_disabled this
  ∧ DisableCommand_m_producer (DisableCommand_released this) = None.
Proof.
  unfold DisableCommand_released.
  by destruct (DisableCommand_m_producer this) eqn:Hheld; simpl; rewrite ?Hheld.
Qed.

(** C7, as the code has it.  For a [DisableCommand] built with the flag [d]
    whose target resolves: [redo] sets the disabled flag of the filter at
    its row to [d]; [undo] sets it to the negation of [d], whatever it was
    before [redo]; so after [redo] then [undo] the flag has the value from
    before [redo] exactly when that value was the negation of [d].  No
    other filter's flag changes. *)
Theorem DisableCommand_redo_undo (this : DisableCommand) (w : World) (p f : handle) :
  held_or_found (DisableCommand_m_producer this) (DisableCommand_m_producerUuid this) w
  = Some p →
  findProducer w (DisableCommand_m_producerUuid this) = Some p →
  chain_get (DisableCommand_m_row this) (filters w p) = Some f →
  ∃ w1 w2 : World,
    DisableCommand_redo this w = Done (DisableCommand_released this) w1
    ∧ disabled w1 f = DisableCommand_m_disabled this
    ∧ DisableCommand_undo (DisableCommand_released this) w1
      = Done (DisableCommand_released this) w2
    ∧ disabled w2 f = negb (DisableCommand_m_disabled this)
    ∧ (disabled w2 f = disabled w f ↔ disabled w f = negb (DisableCommand_m_disabled this))
    ∧ (∀ g, g ≠ f → disabled w2 g = disabled w g).
Proof.
  intros Htarget Hfind Hf.
  destruct (DisableCommand_released_fields this) as (Hrow & Huuid & Hd & _).
  set (w1 := doSetDisabled_world p (DisableCommand_m_row this)
               (DisableCommand_m_disabled this) w).
  set (w2 := doSetDisabled_world p (DisableCommand_m_row this)
               (negb (DisableCommand_m_disabled this)) w1).
  assert (chain_get (DisableCommand_m_row this) (filters w1 p) = Some f) as Hf1.
  { unfold w1. by rewrite doSetDisabled_world_filters. }
  destruct (doSetDisabled_world_disabled p _ (DisableCommand_m_disabled this) w f Hf)
    as [Hset1 Hother1].
  destruct (doSetDisabled_world_disabled p _ (negb (DisableCommand_m_disabled this)) w1 f Hf1)
    as [Hset2 Hother2].
  exists w1, w2. repeat split.
  - by apply DisableCommand_redo_resolved.
  - exact Hset1.
  - rewrite (DisableCommand_undo_resolved _ w1 p).
    + by rewrite Hrow, Hd.
    + rewrite Huuid, (findProducer_same_graph w w1); [done|].
      apply doSetDisabled_world_same_graph.
  - exact Hset2.
  - intros <-. exact Hset2.
  - intros ->. exact Hset2.
  - intros g Hg. fold w1 in Hother1. fold w2 in Hother2.
    by rewrite Hother2, Hother1.
Qed.

(** Enabling the disabled filter [12] and undoing it: disabled again. *)
Lemma DisableCommand_redo_undo_witness :
  ∃ w1 w2 : World,
    DisableCommand_redo demo_enable demo_world = Done (DisableCommand_released demo_enable) w1
    ∧ disabled w1 12%positive = false
    ∧ DisableCommand_undo (DisableCommand_released demo_enable) w1
      = Done (DisableCommand_released demo_enable) w2
    ∧ disabled w2 12%positive = disabled demo_world 12%positive.
Proof.
  destruct (DisableCommand_redo_undo demo_enable demo_world 4%positive 12%positive)
    as (w1 & w2 & Hredo & Hw1 & Hundo & _ & Hprior & _);
    [reflexivity | reflexivity | reflexivity |].
  exists w1, w2. repeat split; try assumption. apply Hprior. reflexivity.
Defined.

(** C7, as it is worded, fails: the filter [12] is disabled; a command that
    disables it and is then undone leaves it enabled, which is not the flag
    from before [redo]. *)
Lemma DisableCommand_undo_not_prior_flag :
  ∃ w1 w2 : World,
    DisableCommand_redo demo_disable demo_world
    = Done (DisableCommand_released demo_disable) w1
    ∧ DisableCommand_undo (DisableCommand_released demo_disable) w1
      = Done (DisableCommand_released demo_disable) w2
    ∧ disabled demo_world 12%positive = true
    ∧ disabled w2 12%positive = false
    ∧ disabled w2 12%positive ≠ disabled demo_world 12%positive.
Proof.
  eexists _, _. split; [reflexivity|]. split; [reflexivity|]. repeat split. discriminate.
Qed.

(** [DisableCommand::mergeWith] never merges. *)
Lemma DisableCommand_mergeWith_never (this : DisableCommand) (other : option QUndoCommand) :
  DisableCommand_mergeWith this other = (false, this).
Proof. done. Qed.

(** ** [PasteCommand] *)

Section PasteCommand_facts.
Context `{!MltEngine}.

(** The removal loop visits every filter and keeps exactly those that do not
    pass the test, in order, whenever its bound covers the filters still to
    be visited. *)
Lemma remove_all_from_filter w (rest kept : list handle) (fuel : nat) :
  (length rest ≤ fuel)%nat →
  remove_all_from w fuel (Z.of_nat (length kept)) (kept ++ rest)
  = kept ++ List.filter (λ f, negb (removable w f)) rest.
Proof.
  revert kept fuel. induction rest as [|f rest IH]; intros kept fuel Hfuel.
  - cbn [List.filter]. rewrite !app_nil_r. destruct fuel as [|fuel]; [done|].
    cbn [remove_all_from]. by rewrite (proj2 (Z.ltb_ge _ _)) by lia.
  - destruct fuel as [|fuel]; simpl in Hfuel; [lia|]. cbn [remove_all_from].
    rewrite (proj2 (Z.ltb_lt _ _)) by (rewrite length_app; simpl; lia).
    rewrite Nat2Z.id, list_lookup_middle by done. cbn [List.filter].
    destruct (removable w f); cbn [negb].
    + rewrite delete_middle. replace (Z.of_nat (length kept) - 1 + 1)
        with (Z.of_nat (length kept)) by lia.
      apply IH. lia.
    + replace (Z.of_nat (length kept) + 1) with (Z.of_nat (length (kept ++ [f])))
        by (rewrite length_app; simpl; lia).
      rewrite (cons_middle f kept rest), app_assoc, IH by lia.
      by rewrite <- app_assoc.
Qed.

Lemma remove_all_filter w (chain : list handle) :
  remove_all w chain = List.filter (λ f, negb (removable w f)) chain.
Proof. exact (remove_all_from_filter w chain [] (length chain) (le_n _)). Qed.

Lemma paste_if_any_world (p : handle) (filtersProducer : option (list handle)) w :
  paste_if_any (Some p) filtersProducer w = Done () (paste_world p filtersProducer w).
Proof.
  unfold paste_if_any, paste_world. destruct filtersProducer as [fs|]; [|done].
  by destruct (0 <? Z.of_nat (length fs)).
Qed.

Lemma PasteCommand_redo_resolved this w p :
  findProducer w (PasteCommand_m_producerUuid this) = Some p →
  PasteCommand_redo this w = Done this (PasteCommand_redo_world p this w).
Proof.
  intros Hfind. unfold PasteCommand_redo. run. rewrite Hfind. cbn [is_valid].
  by rewrite paste_if_any_world.
Qed.

Lemma PasteCommand_redo_unresolved this w :
  findProducer w (PasteCommand_m_producerUuid this) = None →
  PasteCommand_redo this w = AssertionFailed producer_is_valid w.
Proof. intros Hfind. unfold PasteCommand_redo. run. by rewrite Hfind. Qed.

Lemma PasteCommand_undo_resolved this w p :
  findProducer w (PasteCommand_m_producerUuid this) = Some p →
  PasteCommand_undo this w = Done this (PasteCommand_undo_world p this w).
Proof.
  intros Hfind. unfold PasteCommand_undo. run. rewrite Hfind. cbn [is_valid].
  by rewrite paste_if_any_world.
Qed.

Lemma PasteCommand_undo_unresolved this w :
  findProducer w (PasteCommand_m_producerUuid this) = None →
  PasteCommand_undo this w = AssertionFailed producer_is_valid w.
Proof. intros Hfind. unfold PasteCommand_undo. run. by rewrite Hfind. Qed.

Lemma paste_world_filters p filtersProducer w :
  filters (paste_world p filtersProducer w) p = paste_chain filtersProducer (filters w p)
  ∧ ∀ h, h ≠ p → filters (paste_world p filtersProducer w) h = filters w h.
Proof.
  unfold paste_world, paste_chain. destruct filtersProducer as [fs|]; [|done].
  destruct (0 <? Z.of_nat (length fs)); [|done]. simpl. split.
  - apply fn_lookup_insert.
  - intros h Hh. by apply fn_lookup_insert_ne.
Qed.

Lemma paste_world_calls p filtersProducer w :
  calls (paste_world p filtersProducer w)
  = calls w ++ match filtersProducer with
               | Some fs =>
                   if 0 <? Z.of_nat (length fs) then [pasteFilters_call (Some p) fs] else []
               | None => []
               end.
Proof.
  unfold paste_world. destruct filtersProducer as [fs|]; [|by rewrite app_nil_r].
  destruct (0 <? Z.of_nat (length fs)); [done | by rewrite app_nil_r].
Qed.

Lemma paste_world_nothing p filtersProducer w :
  nothing_to_paste filtersProducer → paste_world p filtersProducer w = w.
Proof. by intros [-> | ->]. Qed.

(** C9.  For a [PasteCommand] whose target resolves: when the incoming
    snapshot is malformed or holds no filter, [redo] ends normally without
    calling [MLT.pasteFilters] and leaves every chain as it was; when the
    "before" snapshot is malformed or holds no filter, [undo] ends normally
    without calling [MLT.pasteFilters], and the chain of the target is what
    the removal loop left. *)
Theorem PasteCommand_nothing_to_paste (this : PasteCommand) (w : World) (p : handle) :
  findProducer w (PasteCommand_m_producerUuid this) = Some p →
  (nothing_to_paste (xml_string_producer (PasteCommand_m_xml this)) →
   ∃ w', PasteCommand_redo this w = Done this w'
         ∧ paste_calls (drop (length (calls w)) (calls w')) = []
         ∧ ∀ h, filters w' h = filters w h)
  ∧ (nothing_to_paste (xml_string_producer (PasteCommand_m_beforeXml this)) →
     ∃ w', PasteCommand_undo this w = Done this w'
           ∧ paste_calls (drop (length (calls w)) (calls w')) = []
           ∧ filters w' p = remove_all w (filters w p)
           ∧ ∀ h, h ≠ p → filters w' h = filters w h).
Proof.
  intros Hfind. split; intros Hnothing.
  - exists (PasteCommand_redo_world p this w). split; [by apply PasteCommand_redo_resolved|].
    unfold PasteCommand_redo_world. rewrite paste_world_nothing by done.
    split; [|done]. simpl. by rewrite drop_calls.
  - exists (PasteCommand_undo_world p this w). split; [by apply PasteCommand_undo_resolved|].
    unfold PasteCommand_undo_world. rewrite paste_world_nothing by done.
    split; [simpl; by rewrite drop_calls|]. simpl. split.
    + apply fn_lookup_insert.
    + intros h Hh. by apply fn_lookup_insert_ne.
Qed.

Lemma PasteCommand_redo_world_calls this w p :
  calls (PasteCommand_redo_world p this w)
  = calls w ++ (match xml_string_producer (PasteCommand_m_xml this) with
                | Some fs =>
                    if 0 <? Z.of_nat (length fs) then [pasteFilters_call (Some p) fs] else []
                | None => []
                end) ++ [filtersPasted_signal (Some p)].
Proof.
  unfold PasteCommand_redo_world. simpl. by rewrite paste_world_calls, <- app_assoc.
Qed.

Lemma PasteCommand_undo_world_calls this w p :
  calls (PasteCommand_undo_world p this w)
  = calls w ++ (match xml_string_producer (PasteCommand_m_beforeXml this) with
                | Some fs =>
                    if 0 <? Z.of_nat (length fs) then [pasteFilters_call (Some p) fs] else []
                | None => []
                end) ++ [filtersPasted_signal (Some p)].
Proof.
  unfold PasteCommand_undo_world. simpl. by rewrite paste_world_calls, <- app_assoc.
Qed.

Lemma pasted_signals_once (filtersProducer : option (list handle)) p :
  pasted_signals
    ((match filtersProducer with
      | Some fs => if 0 <? Z.of_nat (length fs) then [pasteFilters_call (Some p) fs] else []
      | None => []
      end) ++ [filtersPasted_signal (Some p)]) = [Some p].
Proof.
  destruct filtersProducer as [fs|]; [|done]. by destruct (0 <? Z.of_nat (length fs)).
Qed.

(** C10.  For a [PasteCommand] whose target resolves, [redo] and [undo]
    each emit [filtersPasted] for the target exactly once, as their last
    step, whatever the snapshot holds; and [undo] hands to its paste step
    the chain of the target without its filters that are neither loaders
    nor hidden, whatever the "before" snapshot holds. *)
Theorem PasteCommand_filtersPasted_once (this : PasteCommand) (w : World) (p : handle) :
  findProducer w (PasteCommand_m_producerUuid this) = Some p →
  ∃ w1 w2 : World,
    PasteCommand_redo this w = Done this w1
    ∧ pasted_signals (drop (length (calls w)) (calls w1)) = [Some p]
    ∧ last (calls w1) = Some (filtersPasted_signal (Some p))
    ∧ PasteCommand_undo this w = Done this w2
    ∧ pasted_signals (drop (length (calls w)) (calls w2)) = [Some p]
    ∧ last (calls w2) = Some (filtersPasted_signal (Some p))
    ∧ filters w2 p
      = paste_chain (xml_string_producer (PasteCommand_m_beforeXml this))
          (List.filter (λ f, negb (removable w f)) (filters w p))
    ∧ (nothing_to_paste (xml_string_producer (PasteCommand_m_beforeXml this)) →
       filters w2 p = List.filter (λ f, negb (removable w f)) (filters w p)).
Proof.
  intros Hfind.
  exists (PasteCommand_redo_world p this w), (PasteCommand_undo_world p this w).
  assert (filters (PasteCommand_undo_world p this w) p
          = paste_chain (xml_string_producer (PasteCommand_m_beforeXml this))
              (List.filter (λ f, negb (removable w f)) (filters w p))) as Hchain.
  { unfold PasteCommand_undo_world. cbn [filters record].
    rewrite (proj1 (paste_world_filters p _ _)). simpl.
    by rewrite fn_lookup_insert, remove_all_filter. }
  repeat split.
  - by apply PasteCommand_redo_resolved.
  - rewrite PasteCommand_redo_world_calls, drop_calls. apply pasted_signals_once.
  - rewrite PasteCommand_redo_world_calls, app_assoc. apply last_snoc.
  - by apply PasteCommand_undo_resolved.
  - rewrite PasteCommand_undo_world_calls, drop_calls. apply pasted_signals_once.
  - rewrite PasteCommand_undo_world_calls, app_assoc. apply last_snoc.
  - exact Hchain.
  - intros Hnothing. rewrite Hchain. by destruct Hnothing as [-> | ->].
Qed.
End PasteCommand_facts.

(** A lost snapshot is skipped on both sides; the loader [11] stays. *)
Lemma PasteCommand_nothing_to_paste_witness :
  (∃ w', @PasteCommand_redo demo_engine demo_paste_malformed demo_world
         = Done demo_paste_malformed w'
         ∧ filters w' 4%positive = [11; 12; 13]%positive)
  ∧ (∃ w', @PasteCommand_undo demo_engine demo_paste_malformed demo_world
           = Done demo_paste_malformed w'
           ∧ filters w' 4%positive = [11]%positive).
Proof.
  destruct (@PasteCommand_nothing_to_paste demo_engine demo_paste_malformed demo_world
              4%positive eq_refl) as [Hredo Hundo].
  split.
  - destruct (Hredo (or_introl eq_refl)) as (w' & Hrun & _ & Hchain).
    exists w'. split; [exact Hrun | rewrite Hchain; reflexivity].
  - destruct (Hundo (or_intror eq_refl)) as (w' & Hrun & _ & Hchain & _).
    exists w'. split; [exact Hrun | rewrite Hchain; reflexivity].
Defined.

(** Pasting two filters, and undoing a paste with an empty "before"
    snapshot: one signal each, and [undo] leaves the loader [11] alone. *)
Lemma PasteCommand_filtersPasted_once_witness :
  ∃ w1 w2 : World,
    @PasteCommand_redo demo_engine demo_paste demo_world = Done demo_paste w1
    ∧ pasted_signals (calls w1) = [Some 4%positive]
    ∧ @PasteCommand_undo demo_engine demo_paste demo_world = Done demo_paste w2
    ∧ pasted_signals (calls w2) = [Some 4%positive]
    ∧ filters w2 4%positive = [11]%positive.
Proof.
  destruct (@PasteCommand_filtersPasted_once demo_engine demo_paste demo_world
              4%positive eq_refl)
    as (w1 & w2 & Hredo & Hsignal & _ & Hundo & Hsignal2 & _ & Hchain & _).
  exists w1, w2. split; [exact Hredo|]. split; [exact Hsignal|]. split; [exact Hundo|].
  split; [exact Hsignal2|]. rewrite Hchain. reflexivity.
Defined.

(** ** [UndoParameterCommand] *)

Lemma inherit_world_facts p row snapshot w s :
  chain_get row (filters w p) = Some s →
  properties (inherit_world p row snapshot w) s = snapshot ∪ properties w s
  ∧ (∀ s', s' ≠ s → properties (inherit_world p row snapshot w) s' = properties w s')
  ∧ calls (inherit_world p row snapshot w)
    = calls w ++ [onUndoOrRedo_call (Some s) (snapshot ∪ properties w s)]
  ∧ (∀ h, filters (inherit_world p row snapshot w) h = filters w h)
  ∧ (∀ h, disabled (inherit_world p row snapshot w) h = disabled w h).
Proof.
  intros Hs. unfold inherit_world. rewrite Hs. simpl. repeat split.
  - apply fn_lookup_insert.
  - intros s' Hs'. by apply fn_lookup_insert_ne.
  - by rewrite fn_lookup_insert.
Qed.

(** Overwriting with a snapshot: its properties are set, the others kept. *)
Lemma snapshot_union (snapshot ps : gmap string string) (k : string) :
  (∀ v, snapshot !! k = Some v → (snapshot ∪ ps) !! k = Some v)
  ∧ (snapshot !! k = None → (snapshot ∪ ps) !! k = ps !! k).
Proof.
  split.
  - intros v Hv. by apply lookup_union_Some_l.
  - intros Hk. by apply lookup_union_r.
Qed.

(** C3.  For an [UndoParameterCommand] with its controller, whose target
    resolves to [p] with the filter [s] at its row: the first [redo] changes
    nothing but the command's own first-redo mark; every later [redo] sets
    each property of the "after" snapshot on [s], keeps the other
    properties, and then calls [onUndoOrRedo] with [s], which has the
    overwritten properties by then; every [undo] does the same with the
    "before" snapshot. *)
Theorem UndoParameterCommand_redo_undo (this : UndoParameterCommand) (w : World)
    (p s : handle) :
  findProducer w (UndoParameterCommand_m_producerUuid this) = Some p →
  is_valid (UndoParameterCommand_m_filterController this) = true →
  chain_get (UndoParameterCommand_m_row this) (filters w p) = Some s →
  (UndoParameterCommand_m_firstRedo this = true →
   UndoParameterCommand_redo this w = Done (UndoParameterCommand_redone this) w)
  ∧ (∃ w', UndoParameterCommand_redo (UndoParameterCommand_redone this) w
           = Done (UndoParameterCommand_redone this) w'
           ∧ properties w' s = UndoParameterCommand_m_after this ∪ properties w s
           ∧ (∀ k v, UndoParameterCommand_m_after this !! k = Some v →
                     properties w' s !! k = Some v)
           ∧ (∀ k, UndoParameterCommand_m_after this !! k = None →
                   properties w' s !! k = properties w s !! k)
           ∧ (∀ s', s' ≠ s → properties w' s' = properties w s')
           ∧ calls w'
             = calls w
                 ++ [onUndoOrRedo_call (Some s)
                       (UndoParameterCommand_m_after this ∪ properties w s)])
  ∧ (∃ w', UndoParameterCommand_undo this w = Done this w'
           ∧ properties w' s = UndoParameterCommand_m_before this ∪ properties w s
           ∧ (∀ k v, UndoParameterCommand_m_before this !! k = Some v →
                     properties w' s !! k = Some v)
           ∧ (∀ k, UndoParameterCommand_m_before this !! k = None →
                   properties w' s !! k = properties w s !! k)
           ∧ (∀ s', s' ≠ s → properties w' s' = properties w s')
           ∧ calls w'
             = calls w
                 ++ [onUndoOrRedo_call (Some s)
                       (UndoParameterCommand_m_before this ∪ properties w s)]).
Proof.
  intros Hfind Hcontroller Hs. split; [apply UndoParameterCommand_first_redo|]. split.
  - rewrite (UndoParameterCommand_redo_resolved _ w p) by done. cbn. rewrite Hcontroller.
    destruct (inherit_world_facts p _ (UndoParameterCommand_m_after this) w s Hs)
      as (Hprops & Hothers & Hcalls & _).
    eexists. split; [reflexivity|]. split; [exact Hprops|].
    split; [intros k v Hk; rewrite Hprops; by apply snapshot_union|].
    split; [intros k Hk; rewrite Hprops; by apply snapshot_union|].
    by split.
  - rewrite (UndoParameterCommand_undo_resolved _ w p) by done. rewrite Hcontroller.
    destruct (inherit_world_facts p _ (UndoParameterCommand_m_before this) w s Hs)
      as (Hprops & Hothers & Hcalls & _).
    eexists. split; [reflexivity|]. split; [exact Hprops|].
    split; [intros k v Hk; rewrite Hprops; by apply snapshot_union|].
    split; [intros k Hk; rewrite Hprops; by apply snapshot_union|].
    by split.
Qed.

(** A command as it is constructed has its first [redo] ahead. *)
Lemma UndoParameterCommand_new_firstRedo w producer uuid name controller row before desc :
  UndoParameterCommand_m_firstRedo
    (UndoParameterCommand_new w producer uuid name controller row before desc) = true
  ∧ UndoParameterCommand_m_filterController
      (UndoParameterCommand_new w producer uuid name controller row before desc)
    = Some controller.
Proof. done. Qed.

(** [redo] and [undo] keep the controller (and everything but the
    first-redo mark) of the command. *)
Lemma UndoParameterCommand_controller_kept this w c' w' :
  UndoParameterCommand_redo this w = Done c' w'
  ∨ UndoParameterCommand_undo this w = Done c' w' →
  UndoParameterCommand_m_filterController c' = UndoParameterCommand_m_filterController this.
Proof.
  unfold UndoParameterCommand_redo, UndoParameterCommand_undo. run.
  intros [Hrun | Hrun].
  - destruct (UndoParameterCommand_m_firstRedo this); [by injection Hrun as <- <-|].
    destruct (findProducer w _) as [p|]; [|done]. cbn [is_valid andb] in Hrun.
    destruct (is_valid (UndoParameterCommand_m_filterController this));
      by injection Hrun as <- <-.
  - destruct (findProducer w _) as [p|]; [|done]. cbn [is_valid andb] in Hrun.
    destruct (is_valid (UndoParameterCommand_m_filterController this));
      by injection Hrun as <- <-.
Qed.

(** The radius of the filter [13] goes to [2] on [redo] and back to [1] on
    [undo]. *)
Lemma UndoParameterCommand_redo_undo_witness :
  ∃ w1 w2 : World,
    UndoParameterCommand_redo demo_change demo_world = Done demo_change w1
    ∧ properties w1 13%positive !! "radius" = Some "2"
    ∧ UndoParameterCommand_undo demo_change w1 = Done demo_change w2
    ∧ properties w2 13%positive !! "radius" = Some "1".
Proof.
  destruct (UndoParameterCommand_redo_undo demo_change demo_world 4%positive 13%positive)
    as (_ & (w1 & Hredo & _ & Hafter & _) & _);
    [reflexivity | reflexivity | reflexivity |].
  change (UndoParameterCommand_redone demo_change) with demo_change in Hredo.
  injection Hredo as <-.
  destruct (UndoParameterCommand_redo_undo demo_change
              (inherit_world 4%positive 2 (UndoParameterCommand_m_after demo_change) demo_world)
              4%positive 13%positive)
    as (_ & _ & (w2 & Hundo & _ & Hbefore & _));
    [reflexivity | reflexivity | reflexivity |].
  eexists _, w2. split; [reflexivity|].
  split; [apply Hafter; reflexivity|]. split; [exact Hundo|]. apply Hbefore. reflexivity.
Defined.

(** A snapshot written over properties gives the snapshot itself exactly
    when there is no property outside it. *)
Lemma snapshot_union_covers (snapshot ps : gmap string string) :
  snapshot ∪ ps = snapshot ↔ dom ps ⊆ dom snapshot.
Proof.
  split.
  - intros Hunion k Hk. rewrite <- Hunion, dom_union. set_solver.
  - intros Hdom. apply map_eq. intros k.
    destruct (snapshot !! k) as [v|] eqn:Hk; [by apply lookup_union_Some_l|].
    rewrite lookup_union_r by done.
    apply not_elem_of_dom. apply not_elem_of_dom in Hk. set_solver.
Qed.

(** C4, as the code has it.  [UndoParameterCommand::mergeWith] accepts
    another [UndoParameterCommand] exactly when both have the same row, the
    same producer identifier and the same text; an accepted merge replaces
    the "after" snapshot of the receiver by that of the incoming command and
    keeps everything else, the "before" snapshot included; a rejected one
    leaves the receiver as it was.  [undo] of the merged command, on the
    filter [s] at its row, sets the properties of the "before" snapshot of
    the first edit and keeps every other property [s] has: [s] ends with
    exactly that snapshot if and only if it had no property outside it.
    [redo] past the first does the same with the "after" snapshot of the
    second edit. *)
Theorem UndoParameterCommand_mergeWith_same_edit (this that : UndoParameterCommand) :
  ((UndoParameterCommand_mergeWith this (an_UndoParameterCommand that)).1 = true
   ↔ UndoParameterCommand_m_row that = UndoParameterCommand_m_row this
     ∧ UndoParameterCommand_m_producerUuid that = UndoParameterCommand_m_producerUuid this
     ∧ UndoParameterCommand_text that = UndoParameterCommand_text this)
  ∧ ((UndoParameterCommand_mergeWith this (an_UndoParameterCommand that)).1 = true →
     (UndoParameterCommand_mergeWith this (an_UndoParameterCommand that)).2
     = UndoParameterCommand_merged this that)
  ∧ ((UndoParameterCommand_mergeWith this (an_UndoParameterCommand that)).1 = false →
     (UndoParameterCommand_mergeWith this (an_UndoParameterCommand that)).2 = this)
  ∧ UndoParameterCommand_m_before (UndoParameterCommand_merged this that)
    = UndoParameterCommand_m_before this
  ∧ UndoParameterCommand_m_after (UndoParameterCommand_merged this that)
    = UndoParameterCommand_m_after that
  ∧ (∀ w p s,
       findProducer w (UndoParameterCommand_m_producerUuid this) = Some p →
       is_valid (UndoParameterCommand_m_filterController this) = true →
       chain_get (UndoParameterCommand_m_row this) (filters w p) = Some s →
       (∃ w', UndoParameterCommand_undo (UndoParameterCommand_merged this that) w
              = Done (UndoParameterCommand_merged this that) w'
              ∧ properties w' s = UndoParameterCommand_m_before this ∪ properties w s
              ∧ (properties w' s = UndoParameterCommand_m_before this
                 ↔ dom (properties w s) ⊆ dom (UndoParameterCommand_m_before this)))
       ∧ (UndoParameterCommand_m_firstRedo this = false →
          ∃ w', UndoParameterCommand_redo (UndoParameterCommand_merged this that) w
                = Done (UndoParameterCommand_merged this that) w'
                ∧ properties w' s = UndoParameterCommand_m_after that ∪ properties w s
                ∧ (properties w' s = UndoParameterCommand_m_after that
                   ↔ dom (properties w s) ⊆ dom (UndoParameterCommand_m_after that)))).
Proof.
  assert (∀ w p s,
       findProducer w (UndoParameterCommand_m_producerUuid this) = Some p →
       is_valid (UndoParameterCommand_m_filterController this) = true →
       chain_get (UndoParameterCommand_m_row this) (filters w p) = Some s →
       (∃ w', UndoParameterCommand_undo (UndoParameterCommand_merged this that) w
              = Done (UndoParameterCommand_merged this that) w'
              ∧ properties w' s = UndoParameterCommand_m_before this ∪ properties w s
              ∧ (properties w' s = UndoParameterCommand_m_before this
                 ↔ dom (properties w s) ⊆ dom (UndoParameterCommand_m_before this)))
       ∧ (UndoParameterCommand_m_firstRedo this = false →
          ∃ w', UndoParameterCommand_redo (UndoParameterCommand_merged this that) w
                = Done (UndoParameterCommand_merged this that) w'
                ∧ properties w' s = UndoParameterCommand_m_after that ∪ properties w s
                ∧ (properties w' s = UndoParameterCommand_m_after that
                   ↔ dom (properties w s) ⊆ dom (UndoParameterCommand_m_after that))))
    as Hrun.
  { intros w p s Hfind Hcontroller Hs. split; [|intros Hfirst].
    - eexists. rewrite (UndoParameterCommand_undo_resolved _ w p) by done.
      cbn [UndoParameterCommand_merged UndoParameterCommand_m_filterController
           UndoParameterCommand_m_row UndoParameterCommand_m_before].
      rewrite Hcontroller. split; [reflexivity|].
      destruct (inherit_world_facts p (UndoParameterCommand_m_row this)
                  (UndoParameterCommand_m_before this) w s Hs) as (-> & _).
      split; [done | apply snapshot_union_covers].
    - eexists. rewrite (UndoParameterCommand_redo_resolved _ w p) by done.
      cbn [UndoParameterCommand_merged UndoParameterCommand_m_filterController
           UndoParameterCommand_m_row UndoParameterCommand_m_after].
      rewrite Hcontroller. split; [reflexivity|].
      destruct (inherit_world_facts p (UndoParameterCommand_m_row this)
                  (UndoParameterCommand_m_after that) w s Hs) as (-> & _).
      split; [done | apply snapshot_union_covers]. }
  unfold UndoParameterCommand_mergeWith. cbn [id_ UndoId_eqb negb orb].
  destruct (UndoParameterCommand_m_row that =? UndoParameterCommand_m_row this) eqn:Hrow;
    [apply Z.eqb_eq in Hrow | apply Z.eqb_neq in Hrow];
    (destruct (UndoParameterCommand_m_producerUuid that
               =? UndoParameterCommand_m_producerUuid this)%N eqn:Huuid;
     [apply N.eqb_eq in Huuid | apply N.eqb_neq in Huuid]);
    (destruct (String.eqb (UndoParameterCommand_text that) (UndoParameterCommand_text this))
       eqn:Htext; [apply String.eqb_eq in Htext | apply String.eqb_neq in Htext]);
    cbn [negb orb fst snd];
    (split; [split; [try done; by intros _ | try done; by intros (? & ? & ?)] |]);
    (split; [done|]); (split; [done|]); (split; [done|]); (split; [done|]);
    exact Hrun.
Qed.

(** The second change of the radius is merged into the first: the merged
    step goes from [1] to [3], and undoing it on the filter [13], which has
    the radius and nothing else, leaves it with the radius [1]. *)
Lemma UndoParameterCommand_mergeWith_same_edit_witness :
  UndoParameterCommand_mergeWith demo_change (an_UndoParameterCommand demo_change_more)
  = (true, UndoParameterCommand_merged demo_change demo_change_more)
  ∧ UndoParameterCommand_m_after (UndoParameterCommand_merged demo_change demo_change_more)
      !! "radius" = Some "3"
  ∧ ∃ w', UndoParameterCommand_undo (UndoParameterCommand_merged demo_change demo_change_more)
            demo_world_dragged
          = Done (UndoParameterCommand_merged demo_change demo_change_more) w'
          ∧ properties w' 13%positive = {[ "radius" := "1" ]}.
Proof.
  destruct (UndoParameterCommand_mergeWith_same_edit demo_change demo_change_more)
    as (_ & Hmerged & _ & _ & Hafter & Hrun).
  split; [apply injective_projections; [reflexivity | exact (Hmerged eq_refl)]|].
  split; [rewrite Hafter; reflexivity|].
  destruct (Hrun demo_world_dragged 4%positive 13%positive eq_refl eq_refl eq_refl)
    as ((w' & Hundo & _ & Hrestored) & _).
  exists w'. split; [exact Hundo|]. apply Hrestored.
  intros k. rewrite !elem_of_dom. intros [v Hk]. exists "1".
  assert (k = "radius") as ->; [|reflexivity].
  change (({[ "radius" := "5" ]} : gmap string string) !! k = Some v) in Hk.
  by apply lookup_singleton_Some in Hk as [<- _].
Defined.

(** C4, as it is worded, fails when the first edit adds a property: the
    filter [13] had the radius only, the first edit gave it a level of [4]
    and the second a level of [5]; undoing the merged step leaves the
    level, so the filter is not as it was before the first edit. *)
Lemma UndoParameterCommand_merged_undo_keeps_added :
  ∃ merged w',
    UndoParameterCommand_mergeWith demo_level_first (an_UndoParameterCommand demo_level_second)
    = (true, merged)
    ∧ UndoParameterCommand_m_before merged = properties demo_world_radius 13%positive
    ∧ UndoParameterCommand_undo merged (demo_world_level "5") = Done merged w'
    ∧ properties w' 13%positive !! "level" = Some "5"
    ∧ properties demo_world_radius 13%positive !! "level" = None
    ∧ properties w' 13%positive ≠ properties demo_world_radius 13%positive.
Proof.
  eexists _, _. split; [reflexivity|]. split; [by vm_compute|].
  split; [reflexivity|]. split; [reflexivity|]. split; [reflexivity|].
  intros Heq. apply (f_equal (λ ps : gmap string string, ps !! "level")) in Heq.
  by vm_compute in Heq.
Qed.

(** A command of another kind is turned down. *)
Lemma UndoParameterCommand_mergeWith_other_kind (this : UndoParameterCommand)
    (other : QUndoCommand) :
  (∀ that, other ≠ an_UndoParameterCommand that) →
  UndoParameterCommand_mergeWith this other = (false, this).
Proof.
  intros Hother. destruct other as [| | | | |that]; try done. by destruct (Hother that).
Qed.

(** ** A target that cannot be resolved *)

Section unresolved_target.
Context `{!MltEngine}.

Lemma bind_Done {A B} (m : M A) (k : A → M B) w a w' :
  m w = Done a w' → (x <- m;; k x) w = k a w'.
Proof. unfold bind. by intros ->. Qed.

Lemma bind_AssertionFailed {A B} (m : M A) (k : A → M B) w which w' :
  m w = AssertionFailed which w' → (x <- m;; k x) w = AssertionFailed which w'.
Proof. unfold bind. by intros ->. Qed.

Lemma redo_unresolved (c : QUndoCommand) (w : World) :
  redo_target c w = Some None → redo c w = AssertionFailed producer_is_valid w.
Proof.
  destruct c as [c|c|c|c|c|c]; simpl; intros Htarget; apply bind_AssertionFailed.
  - apply AddCommand_redo_unresolved. unfold AddCommand_target. congruence.
  - apply RemoveCommand_redo_unresolved. congruence.
  - apply MoveCommand_redo_unresolved. congruence.
  - apply DisableCommand_redo_unresolved. congruence.
  - apply PasteCommand_redo_unresolved. congruence.
  - destruct (UndoParameterCommand_m_firstRedo c) eqn:Hfirst; [done|].
    apply UndoParameterCommand_redo_unresolved; congruence.
Qed.

Lemma undo_unresolved (c : QUndoCommand) (w : World) :
  undo_target c w = None → ∃ which, undo c w = AssertionFailed which w.
Proof.
  destruct c as [c|c|c|c|c|c]; unfold undo_target; intros Htarget.
  - exists producer_is_valid. apply bind_AssertionFailed.
    by apply AddCommand_undo_unresolved.
  - destruct (RemoveCommand_undo_unresolved c w Htarget) as [which Hwhich].
    exists which. by apply bind_AssertionFailed.
  - exists producer_is_valid. apply bind_AssertionFailed.
    by apply MoveCommand_undo_unresolved.
  - exists producer_is_valid. apply bind_AssertionFailed.
    by apply DisableCommand_undo_unresolved.
  - exists producer_is_valid. apply bind_AssertionFailed.
    by apply PasteCommand_undo_unresolved.
  - exists producer_is_valid. apply bind_AssertionFailed.
    by apply UndoParameterCommand_undo_unresolved.
Qed.

Lemma redo_resolved (c : QUndoCommand) (w : World) (p : handle) :
  redo_target c w = Some (Some p) → ∃ c' w', redo c w = Done c' w'.
Proof.
  destruct c as [c|c|c|c|c|c]; simpl; intros Htarget.
  - destruct (AddCommand_redo_Done c w p) as [w' Hrun]; [unfold AddCommand_target; congruence|].
    eexists _, w'. by erewrite bind_Done.
  - destruct (RemoveCommand_redo_Done c w p) as (c' & w' & Hrun); [congruence|].
    eexists _, w'. by erewrite bind_Done.
  - destruct (MoveCommand_redo_Done c w p) as (c' & w' & Hrun); [congruence|].
    eexists _, w'. by erewrite bind_Done.
  - eexists _, _. erewrite bind_Done; [done|].
    apply (DisableCommand_redo_resolved c w p). congruence.
  - eexists _, _. erewrite bind_Done; [done|].
    apply (PasteCommand_redo_resolved c w p). congruence.
  - destruct (UndoParameterCommand_m_firstRedo c) eqn:Hfirst; [done|].
    eexists _, _. erewrite bind_Done; [done|].
    apply (UndoParameterCommand_redo_resolved c w p); congruence.
Qed.

Lemma undo_resolved (c : QUndoCommand) (w : World) (p : handle) :
  undo_target c w = Some p →
  (∃ c' w', undo c w = Done c' w') ∨ undo c w = AssertionFailed service_is_valid w.
Proof.
  destruct c as [c|c|c|c|c|c]; unfold undo_target; intros Htarget.
  - left. eexists _, _. simpl. erewrite bind_Done; [done|].
    by apply (AddCommand_undo_resolved c w p).
  - destruct (RemoveCommand_undo_resolved c w p Htarget) as [[w' Hrun] | Hrun].
    + left. eexists _, w'. simpl. by erewrite bind_Done.
    + right. by apply bind_AssertionFailed.
  - destruct (MoveCommand_undo_Done c w p Htarget) as [w' Hrun].
    left. eexists _, w'. simpl. by erewrite bind_Done.
  - left. eexists _, _. simpl. erewrite bind_Done; [done|].
    by apply (DisableCommand_undo_resolved c w p).
  - left. eexists _, _. simpl. erewrite bind_Done; [done|].
    by apply (PasteCommand_undo_resolved c w p).
  - left. eexists _, _. simpl. erewrite bind_Done; [done|].
    by apply (UndoParameterCommand_undo_resolved c w p).
Qed.












End unresolved_target.



(** * More of the commands *)

(** ** How a command can fail *)

Section failures.
Context `{!MltEngine}.

Lemma redo_no_lookup (c : QUndoCommand) (w : World) :
  redo_target c w = None → ∃ c', redo c w = Done c' w.
Proof.
  destruct c as [c|c|c|c|c|c]; simpl; try done.
  destruct (UndoParameterCommand_m_firstRedo c) eqn:Hfirst; [|done]. intros _.
  eexists. erewrite bind_Done; [done|]. by apply UndoParameterCommand_first_redo.
Qed.

Lemma undo_service_invalid (c : QUndoCommand) (w w' : World) :
  undo c w = AssertionFailed service_is_valid w' ↔
  w' = w ∧ ∃ this, c = a_RemoveCommand this ∧ RemoveCommand_m_service this = None.
Proof.
  split.
  - destruct c as [c|c|c|c|c|c]; unfold undo, AddCommand_undo, RemoveCommand_undo,
      MoveCommand_undo, DisableCommand_undo, PasteCommand_undo, UndoParameterCommand_undo;
      run.
    2: { destruct (RemoveCommand_m_service c) eqn:Hservice; cbn [is_valid].
         - destruct (findProducer w _); [done|]. cbn [is_valid]. done.
         - intros [= <-]. split; [done|]. by exists c. }
    all: destruct (findProducer w _) as [p|]; cbn [is_valid]; try done.
    + destruct (for_each_Done (reverse (seq 0 (length (AddCommand_m_rows c))))
                  (λ i, _ <- doRemoveService (Some p) (AddCommand_m_rows c !!! i);; ret ()) w)
        as [w1 Hloop]; [intros i w0; eexists; apply doRemoveService_step|].
      unfold bind, ret, gets, modify in Hloop. by rewrite Hloop.
    + unfold paste_if_any, MLT_pasteFilters_, emit_filtersPasted. run.
      destruct (xml_string_producer _) as [fs|]; [|done].
      by destruct (0 <? Z.of_nat (length fs)).
    + by destruct (is_valid (UndoParameterCommand_m_filterController c)).
  - intros (-> & this & -> & Hservice). unfold undo, RemoveCommand_undo. run.
    by rewrite Hservice.
Qed.

(** X3.  The two ways a command fails.  A failed [redo] or [undo] has
    changed nothing.  [redo] fails only on the producer, and does so exactly
    when it looks for its target and finds none.  [undo] fails on the
    service exactly for a [RemoveCommand] whose service is invalid, whether
    its target resolves or not, and on the producer exactly when it is not
    in that case and the lookup finds nothing. *)
Theorem failure_modes (c : QUndoCommand) (w : World) :
  (∀ which w', redo c w = AssertionFailed which w' ∨ undo c w = AssertionFailed which w' →
               w' = w)
  ∧ (∀ w', redo c w ≠ AssertionFailed service_is_valid w')
  ∧ (redo c w = AssertionFailed producer_is_valid w ↔ redo_target c w = Some None)
  ∧ (undo c w = AssertionFailed service_is_valid w
     ↔ ∃ this, c = a_RemoveCommand this ∧ RemoveCommand_m_service this = None)
  ∧ (undo c w = AssertionFailed producer_is_valid w
     ↔ undo_target c w = None
       ∧ ¬ ∃ this, c = a_RemoveCommand this ∧ RemoveCommand_m_service this = None).
Proof.
  assert (∀ which w', redo c w = AssertionFailed which w' →
                      which = producer_is_valid ∧ w' = w ∧ redo_target c w = Some None)
    as Hredo.
  { intros which w' Hfail. destruct (redo_target c w) as [[p|]|] eqn:Htarget.
    - destruct (redo_resolved c w p Htarget) as (c' & w1 & Hrun). congruence.
    - rewrite (redo_unresolved c w Htarget) in Hfail. by injection Hfail as <- <-.
    - destruct (redo_no_lookup c w Htarget) as (c' & Hrun). congruence. }
  assert (∀ which w', undo c w = AssertionFailed which w' → w' = w) as Hundo.
  { intros which w' Hfail. destruct (undo_target c w) as [p|] eqn:Htarget.
    - destruct (undo_resolved c w p Htarget) as [(c' & w1 & Hrun) | Hrun]; congruence.
    - destruct (undo_unresolved c w Htarget) as [which' Hrun]. congruence. }
  split; [intros which w' [Hfail | Hfail]; [by apply Hredo in Hfail as (_ & ? & _) | eauto]|].
  split; [intros w' Hfail; by apply Hredo in Hfail as (? & _)|].
  split; [split; [intros Hfail; by apply Hredo in Hfail as (_ & _ & ?) | apply redo_unresolved]|].
  split.
  { rewrite undo_service_invalid. split; [by intros [_ ?] | by intros ?; split]. }
  split.
  - intros Hfail. split.
    + destruct (undo_target c w) as [p|] eqn:Htarget; [|done].
      destruct (undo_resolved c w p Htarget) as [(c' & w1 & Hrun) | Hrun]; congruence.
    + intros Hremove. assert (undo c w = AssertionFailed service_is_valid w) as Hservice
        by (apply undo_service_invalid; by split).
      congruence.
  - intros [Htarget Hnot]. destruct (undo_unresolved c w Htarget) as [[] Hrun]; [done|].
    destruct Hnot. by apply undo_service_invalid in Hrun as [_ ?].
Qed.
End failures.

(** An [AddCommand] on the clip [60], which no root holds, fails on the
    producer when it is undone. *)
Lemma failure_modes_witness :
  @undo demo_engine (an_AddCommand demo_add_lost) demo_world
  = AssertionFailed producer_is_valid demo_world.
Proof.
  apply (@failure_modes demo_engine (an_AddCommand demo_add_lost) demo_world).
  split; [reflexivity|]. by intros (this & [=] & _).
Defined.

(** ** [RemoveCommand] and [MoveCommand] *)

Lemma chain_get_Some row chain s :
  chain_get row chain = Some s ↔
  0 ≤ row < Z.of_nat (length chain) ∧ chain !! Z.to_nat row = Some s.
Proof.
  unfold chain_get. destruct (index_lt row (length chain)) as [i|] eqn:Hi; simpl.
  - apply index_lt_Some in Hi as (? & ? & ->). split; [by split; [lia|] | by intros [_ ?]].
  - apply index_lt_None in Hi. split; [done | lia].
Qed.

(** Putting back the filter that was taken out. *)
Lemma insert_at_delete {A} (l : list A) (i : nat) (x : A) :
  l !! i = Some x → insert_at i x (delete i l) = l.
Proof.
  intros Hx. pose proof (lookup_lt_Some _ _ _ Hx) as Hlt. unfold insert_at.
  rewrite delete_take_drop.
  rewrite take_app_length', drop_app_length' by (rewrite length_take; lia).
  by apply take_drop_middle.
Qed.

Lemma chain_add_remove s row chain :
  chain_get row chain = Some s → chain_add (Some s) row (chain_remove row chain) = chain.
Proof.
  intros Hs. apply chain_get_Some in Hs as (Hrow & Hs).
  pose proof (lookup_lt_Some _ _ _ Hs) as Hlt.
  unfold chain_remove, chain_add.
  destruct (index_lt row (length chain)) as [i|] eqn:Hi;
    [apply index_lt_Some in Hi as (_ & _ & ->) | apply index_lt_None in Hi; lia].
  destruct (index_lt row (S (length (delete (Z.to_nat row) chain)))) as [i|] eqn:Hi;
    [apply index_lt_Some in Hi as (_ & _ & ->) | apply index_lt_None in Hi].
  - by apply insert_at_delete.
  - rewrite length_delete in Hi by eauto. lia.
Qed.

Lemma RemoveCommand_redo_resolved this w p :
  held_or_found (RemoveCommand_m_producer this) (RemoveCommand_m_producerUuid this) w = Some p →
  RemoveCommand_redo this w
  = Done (RemoveCommand_released this)
      (chain_step p (doRemoveService_call (Some p) (RemoveCommand_m_row this),
                     chain_remove (RemoveCommand_m_row this)) w).
Proof.
  intros Htarget. unfold RemoveCommand_redo. unfold bind at 1.
  by rewrite resolve_held_or_found, Htarget.
Qed.

Lemma RemoveCommand_undo_Done this w p :
  is_valid (RemoveCommand_m_service this) = true →
  findProducer w (RemoveCommand_m_producerUuid this) = Some p →
  RemoveCommand_undo this w
  = Done this
      (chain_step p (doAddService_call (Some p) (RemoveCommand_m_service this)
                       (RemoveCommand_m_row this),
                     chain_add (RemoveCommand_m_service this) (RemoveCommand_m_row this)) w).
Proof.
  intros Hservice Hfind. unfold RemoveCommand_undo. run. by rewrite Hservice, Hfind.
Qed.

(** X4.  For a [RemoveCommand] whose target resolves to [p] and whose
    service is the filter at its row: [redo] takes that filter out of the
    chain of [p], which gets one shorter; [undo] puts it back at the row, so
    that the chain is the one from before [redo]; and a further [redo] takes
    it out again. *)
Theorem RemoveCommand_redo_undo (this : RemoveCommand) (w : World) (p s : handle) :
  held_or_found (RemoveCommand_m_producer this) (RemoveCommand_m_producerUuid this) w = Some p →
  findProducer w (RemoveCommand_m_producerUuid this) = Some p →
  chain_get (RemoveCommand_m_row this) (filters w p) = Some s →
  RemoveCommand_m_service this = Some s →
  ∃ w1 w2 w3 : World,
    RemoveCommand_redo this w = Done (RemoveCommand_released this) w1
    ∧ filters w1 p = delete (Z.to_nat (RemoveCommand_m_row this)) (filters w p)
    ∧ S (length (filters w1 p)) = length (filters w p)
    ∧ RemoveCommand_undo (RemoveCommand_released this) w1
      = Done (RemoveCommand_released this) w2
    ∧ filters w2 p = filters w p
    ∧ RemoveCommand_redo (RemoveCommand_released this) w2
      = Done (RemoveCommand_released this) w3
    ∧ filters w3 p = filters w1 p.
Proof.
  intros Htarget Hfind Hs Hservice.
  pose proof (proj1 (chain_get_Some _ _ _) Hs) as (Hrow & Hat).
  pose proof (lookup_lt_Some _ _ _ Hat) as Hlt.
  set (row := RemoveCommand_m_row this) in *.
  set (w1 := chain_step p (doRemoveService_call (Some p) row, chain_remove row) w).
  set (w2 := chain_step p (doAddService_call (Some p) (Some s) row, chain_add (Some s) row) w1).
  set (w3 := chain_step p (doRemoveService_call (Some p) row, chain_remove row) w2).
  assert (chain_remove row (filters w p) = delete (Z.to_nat row) (filters w p)) as Hremove.
  { unfold chain_remove. destruct (index_lt row _) as [i|] eqn:Hi;
      [by apply index_lt_Some in Hi as (_ & _ & ->) | apply index_lt_None in Hi; lia]. }
  assert (filters w1 p = delete (Z.to_nat row) (filters w p)) as Hw1.
  { unfold w1. simpl. by rewrite fn_lookup_insert. }
  assert (filters w2 p = filters w p) as Hw2.
  { unfold w2. cbn [chain_step filters record set_filters fst snd].
    rewrite fn_lookup_insert. unfold w1. cbn [chain_step filters record set_filters fst snd].
    rewrite fn_lookup_insert. by apply chain_add_remove. }
  exists w1, w2, w3. repeat split.
  - by apply RemoveCommand_redo_resolved.
  - exact Hw1.
  - rewrite Hw1, length_delete by eauto. lia.
  - rewrite (RemoveCommand_undo_Done _ w1 p); simpl; [by rewrite Hservice | by rewrite Hservice |].
    by rewrite (findProducer_same_graph w w1) by apply chain_step_same_graph.
  - exact Hw2.
  - rewrite (RemoveCommand_redo_resolved _ w2 p); [done|]. unfold held_or_found. simpl.
    rewrite (findProducer_same_graph w1 w2), (findProducer_same_graph w w1);
      [done | apply chain_step_same_graph..].
  - unfold w3. cbn [chain_step filters record set_filters fst snd].
    by rewrite fn_lookup_insert, Hw2, Hw1.
Qed.

(** Removing the filter [12] from the clip [4] and undoing it. *)
Lemma RemoveCommand_redo_undo_witness :
  ∃ w1 w2 : World,
    RemoveCommand_redo demo_remove demo_world = Done (RemoveCommand_released demo_remove) w1
    ∧ filters w1 4%positive = [11; 13]%positive
    ∧ RemoveCommand_undo (RemoveCommand_released demo_remove) w1
      = Done (RemoveCommand_released demo_remove) w2
    ∧ filters w2 4%positive = [11; 12; 13]%positive.
Proof.
  destruct (RemoveCommand_redo_undo demo_remove demo_world 4%positive 12%positive)
    as (w1 & w2 & _ & Hredo & Hw1 & _ & Hundo & Hw2 & _);
    [reflexivity | reflexivity | reflexivity | reflexivity |].
  exists w1, w2. split; [exact Hredo|]. split; [rewrite Hw1; reflexivity|].
  split; [exact Hundo|]. rewrite Hw2. reflexivity.
Defined.

Lemma chain_move_in_range fromRow toRow chain s :
  chain_get fromRow chain = Some s →
  0 ≤ toRow < Z.of_nat (length chain) →
  chain_move fromRow toRow chain
  = insert_at (Z.to_nat toRow) s (delete (Z.to_nat fromRow) chain).
Proof.
  intros Hs Hto. apply chain_get_Some in Hs as (Hfrom & Hs). unfold chain_move.
  destruct (index_lt fromRow (length chain)) as [i|] eqn:Hi;
    [apply index_lt_Some in Hi as (_ & _ & ->) | apply index_lt_None in Hi; lia].
  destruct (index_lt toRow (length chain)) as [j|] eqn:Hj;
    [apply index_lt_Some in Hj as (_ & _ & ->) | apply index_lt_None in Hj; lia].
  by rewrite Hs.
Qed.

(** A moved filter sits at its new row; the chain keeps its length and its
    filters; and moving it back gives the chain as it was. *)
Lemma chain_move_facts fromRow toRow chain s :
  chain_get fromRow chain = Some s →
  0 ≤ toRow < Z.of_nat (length chain) →
  chain_get toRow (chain_move fromRow toRow chain) = Some s
  ∧ length (chain_move fromRow toRow chain) = length chain
  ∧ chain_move fromRow toRow chain ≡ₚ chain
  ∧ chain_move toRow fromRow (chain_move fromRow toRow chain) = chain.
Proof.
  intros Hs Hto. rewrite (chain_move_in_range _ _ _ s) by done.
  pose proof (proj1 (chain_get_Some _ _ _) Hs) as (Hfrom & Hat).
  pose proof (lookup_lt_Some _ _ _ Hat) as Hlt.
  set (i := Z.to_nat fromRow) in *. set (j := Z.to_nat toRow).
  set (d := delete i chain).
  assert (S (length d) = length chain) as Hd by (unfold d; rewrite length_delete by eauto; lia).
  assert (length (take j d) = j) as Hj by (rewrite length_take; lia).
  assert (length (insert_at j s d) = length chain) as Hlen.
  { unfold insert_at. rewrite length_app. simpl. rewrite Hj, length_drop. lia. }
  assert (insert_at j s d !! j = Some s) as Hnew.
  { unfold insert_at. by apply list_lookup_middle. }
  assert (chain_get toRow (insert_at j s d) = Some s) as Hget.
  { apply chain_get_Some. split; [lia | exact Hnew]. }
  split; [exact Hget|]. split; [exact Hlen|]. split.
  - unfold insert_at. rewrite <- Permutation_middle, take_drop. unfold d.
    symmetry. by apply delete_Permutation.
  - rewrite (chain_move_in_range _ _ _ s) by (done || lia). fold i j.
    replace (delete j (insert_at j s d)) with d; [by apply insert_at_delete|].
    unfold insert_at. rewrite <- Hj at 1. by rewrite delete_middle, take_drop.
Qed.

Lemma MoveCommand_redo_resolved this w p :
  held_or_found (MoveCommand_m_producer this) (MoveCommand_m_producerUuid this) w = Some p →
  MoveCommand_redo this w
  = Done (MoveCommand_released this)
      (chain_step p
         (doMoveService_call (Some p) (MoveCommand_m_fromRow this) (MoveCommand_m_toRow this),
          chain_move (MoveCommand_m_fromRow this) (MoveCommand_m_toRow this)) w).
Proof.
  intros Htarget. unfold MoveCommand_redo. unfold bind at 1.
  by rewrite resolve_held_or_found, Htarget.
Qed.

Lemma MoveCommand_undo_resolved this w p :
  findProducer w (MoveCommand_m_producerUuid this) = Some p →
  MoveCommand_undo this w
  = Done this
      (chain_step p
         (doMoveService_call (Some p) (MoveCommand_m_toRow this) (MoveCommand_m_fromRow this),
          chain_move (MoveCommand_m_toRow this) (MoveCommand_m_fromRow this)) w).
Proof. intros Hfind. unfold MoveCommand_undo. run. by rewrite Hfind. Qed.

Lemma MoveCommand_released_fields this :
  MoveCommand_m_fromRow (MoveCommand_released this) = MoveCommand_m_fromRow this
  ∧ MoveCommand_m_toRow (MoveCommand_released this) = MoveCommand_m_toRow this
  ∧ MoveCommand_m_producerUuid (MoveCommand_released this) = MoveCommand_m_producerUuid this
  ∧ MoveCommand_m_producer (MoveCommand_released this) = None.
Proof.
  unfold MoveCommand_released.
  by destruct (MoveCommand_m_producer this) eqn:Hheld; simpl; rewrite ?Hheld.
Qed.

(** X5.  For a [MoveCommand] whose target resolves to [p], with a filter at
    its source row and a destination row inside the chain: [redo] puts that
    filter at the destination row and keeps the length and the filters of
    the chain; [undo] moves it back, so that the chain is the one from
    before [redo]. *)
Theorem MoveCommand_redo_undo (this : MoveCommand) (w : World) (p s : handle) :
  held_or_found (MoveCommand_m_producer this) (MoveCommand_m_producerUuid this) w = Some p →
  findProducer w (MoveCommand_m_producerUuid this) = Some p →
  chain_get (MoveCommand_m_fromRow this) (filters w p) = Some s →
  0 ≤ MoveCommand_m_toRow this < Z.of_nat (length (filters w p)) →
  ∃ w1 w2 : World,
    MoveCommand_redo this w = Done (MoveCommand_released this) w1
    ∧ chain_get (MoveCommand_m_toRow this) (filters w1 p) = Some s
    ∧ length (filters w1 p) = length (filters w p)
    ∧ filters w1 p ≡ₚ filters w p
    ∧ MoveCommand_undo (MoveCommand_released this) w1 = Done (MoveCommand_released this) w2
    ∧ filters w2 p = filters w p.
Proof.
  intros Htarget Hfind Hs Hto.
  destruct (MoveCommand_released_fields this) as (Hfrom' & Hto' & Huuid' & _).
  destruct (chain_move_facts _ _ _ s Hs Hto) as (Hget & Hlen & Hperm & Hback).
  eexists _, _. split; [by apply MoveCommand_redo_resolved|].
  cbn [chain_step filters record set_filters fst snd]. rewrite fn_lookup_insert.
  split; [exact Hget|]. split; [exact Hlen|]. split; [exact Hperm|]. split.
  - rewrite (MoveCommand_undo_resolved _ _ p); [by rewrite Hfrom', Hto'|].
    rewrite Huuid'. by rewrite (findProducer_same_graph w) by apply chain_step_same_graph.
  - cbn [chain_step filters record set_filters fst snd].
    by rewrite !fn_lookup_insert.
Qed.

(** Moving the loader [11] of the clip [4] to the end and back. *)
Lemma MoveCommand_redo_undo_witness :
  ∃ w1 w2 : World,
    MoveCommand_redo demo_move demo_world = Done (MoveCommand_released demo_move) w1
    ∧ filters w1 4%positive = [12; 13; 11]%positive
    ∧ MoveCommand_undo (MoveCommand_released demo_move) w1
      = Done (MoveCommand_released demo_move) w2
    ∧ filters w2 4%positive = [11; 12; 13]%positive.
Proof.
  destruct (MoveCommand_redo_undo demo_move demo_world 4%positive 11%positive)
    as (w1 & w2 & Hredo & _ & _ & _ & Hundo & Hw2);
    [reflexivity | reflexivity | reflexivity | done |].
  exists w1, w2. split; [exact Hredo|].
  split; [injection Hredo as <-; reflexivity|].
  split; [exact Hundo|]. rewrite Hw2. reflexivity.
Defined.

(** ** The held reference *)

Section first_redo.
Context `{!MltEngine}.


End first_redo.


(** ** Runs of merges *)

Lemma AddCommand_mergeWith_accept this that :
  AddCommand_m_type this = AddSet →
  AddCommand_m_type that = AddSet ∨ AddCommand_m_type that = AddSetLast →
  AddCommand_mergeWith this (Some (an_AddCommand that))
  = (true, AddCommand_merged this (AddCommand_m_type that)
             (AddCommand_m_rows that !!! 0%nat) (AddCommand_m_services that !!! 0%nat)).
Proof.
  intros Hthis Hthat. unfold AddCommand_mergeWith. cbn [id_ UndoId_eqb negb].
  rewrite Hthis. by destruct Hthat as [-> | ->].
Qed.

Lemma AddCommand_mergeWith_reject this other :
  AddCommand_m_type this ≠ AddSet → AddCommand_mergeWith this other = (false, this).
Proof.
  intros Hthis. unfold AddCommand_mergeWith.
  destruct other as [[that| | | | |]|]; try done. cbn [id_ UndoId_eqb negb].
  by destruct (AddCommand_m_type this).
Qed.

Lemma AddCommand_absorb_members others : ∀ this,
  AddCommand_m_type this = AddSet →
  Forall (λ that, AddCommand_m_type that = AddSet) others →
  AddCommand_m_rows (AddCommand_absorb this others)
  = AddCommand_m_rows this ++ ((λ that, AddCommand_m_rows that !!! 0%nat) <$> others)
  ∧ AddCommand_m_services (AddCommand_absorb this others)
    = AddCommand_m_services this
        ++ ((λ that, AddCommand_m_services that !!! 0%nat) <$> others)
  ∧ AddCommand_m_type (AddCommand_absorb this others) = AddSet.
Proof.
  induction others as [|that others IH]; intros this Hthis Hothers.
  - simpl. by rewrite !app_nil_r.
  - apply Forall_cons in Hothers as [Hthat Hothers].
    unfold AddCommand_absorb. cbn [foldl].
    rewrite AddCommand_mergeWith_accept by auto. cbn [snd].
    fold (AddCommand_absorb
            (AddCommand_merged this (AddCommand_m_type that)
               (AddCommand_m_rows that !!! 0%nat) (AddCommand_m_services that !!! 0%nat))
            others).
    destruct (IH (AddCommand_merged this (AddCommand_m_type that)
                    (AddCommand_m_rows that !!! 0%nat)
                    (AddCommand_m_services that !!! 0%nat)))
      as (Hrows & Hservices & Htype); [done | done |].
    rewrite Hrows, Hservices, Htype. simpl. by rewrite <- !app_assoc.
Qed.

Lemma AddCommand_absorb_closed others : ∀ this,
  AddCommand_m_type this ≠ AddSet → AddCommand_absorb this others = this.
Proof.
  induction others as [|that others IH]; intros this Hthis; [done|].
  unfold AddCommand_absorb. cbn [foldl]. rewrite AddCommand_mergeWith_reject by done.
  by apply IH.
Qed.

(** X7.  A filter set in the history.  Offered one after the other to an
    [AddSet] command, the members of a set ([AddSet] commands, then one
    [AddSetLast] command) are all absorbed: the command ends up with its own
    rows and services followed by the first row and service of each member,
    in the order they came, and with the mode [AddSetLast]; from then on it
    absorbs nothing more, whatever is offered.  It still holds one service
    per row. *)
Theorem AddCommand_absorb_set (this : AddCommand) (middle : list AddCommand)
    (last : AddCommand) (more : list AddCommand) :
  AddCommand_m_type this = AddSet →
  Forall (λ that, AddCommand_m_type that = AddSet) middle →
  AddCommand_m_type last = AddSetLast →
  AddCommand_m_rows (AddCommand_absorb this (middle ++ [last]))
  = AddCommand_m_rows this
      ++ ((λ that, AddCommand_m_rows that !!! 0%nat) <$> middle ++ [last])
  ∧ AddCommand_m_services (AddCommand_absorb this (middle ++ [last]))
    = AddCommand_m_services this
        ++ ((λ that, AddCommand_m_services that !!! 0%nat) <$> middle ++ [last])
  ∧ AddCommand_m_type (AddCommand_absorb this (middle ++ [last])) = AddSetLast
  ∧ AddCommand_absorb (AddCommand_absorb this (middle ++ [last])) more
    = AddCommand_absorb this (middle ++ [last])
  ∧ (AddCommand_wf this → AddCommand_wf (AddCommand_absorb this (middle ++ [last]))).
Proof.
  intros Hthis Hmiddle Hlast.
  destruct (AddCommand_absorb_members middle this Hthis Hmiddle)
    as (Hrows & Hservices & Htype).
  assert (AddCommand_absorb this (middle ++ [last])
          = AddCommand_merged (AddCommand_absorb this middle) AddSetLast
              (AddCommand_m_rows last !!! 0%nat) (AddCommand_m_services last !!! 0%nat))
    as ->.
  { unfold AddCommand_absorb. rewrite foldl_app. cbn [foldl].
    fold (AddCommand_absorb this middle).
    rewrite AddCommand_mergeWith_accept by auto. by rewrite Hlast. }
  cbn [AddCommand_merged AddCommand_m_rows AddCommand_m_services AddCommand_m_type].
  rewrite Hrows, Hservices, !fmap_app, !app_assoc.
  split; [done|]. split; [done|]. split; [done|]. split.
  - by apply AddCommand_absorb_closed.
  - intros [Hlen Hnonempty].
    unfold AddCommand_wf.
    cbn [AddCommand_merged AddCommand_m_rows AddCommand_m_services AddCommand_m_type].
    rewrite Hrows, Hservices. split.
    + by rewrite !length_app, !length_fmap, Hlen.
    + by destruct (AddCommand_m_rows this).
Qed.

(** The two members of the set on the clip [4]. *)
Lemma AddCommand_absorb_set_witness :
  AddCommand_m_rows (AddCommand_absorb demo_add_set [demo_add_set_last]) = [3; 4]
  ∧ AddCommand_m_services (AddCommand_absorb demo_add_set [demo_add_set_last])
    = [Some 20%positive; Some 21%positive]
  ∧ AddCommand_absorb (AddCommand_absorb demo_add_set [demo_add_set_last]) [demo_add_set]
    = AddCommand_absorb demo_add_set [demo_add_set_last].
Proof.
  destruct (AddCommand_absorb_set demo_add_set [] demo_add_set_last [demo_add_set])
    as (Hrows & Hservices & _ & Hclosed & _); [reflexivity | constructor | reflexivity |].
  split; [exact Hrows|]. split; [exact Hservices | exact Hclosed].
Defined.

Lemma UndoParameterCommand_mergeWith_accept this that :
  same_edit this that →
  UndoParameterCommand_mergeWith this (an_UndoParameterCommand that)
  = (true, UndoParameterCommand_merged this that).
Proof.
  intros (Hrow & Huuid & Htext). unfold UndoParameterCommand_mergeWith.
  cbn [id_ UndoId_eqb negb orb].
  by rewrite Hrow, Huuid, Htext, Z.eqb_refl, N.eqb_refl, String.eqb_refl.
Qed.

(** X8.  A dragged parameter.  Offered one after the other to an
    [UndoParameterCommand], changes of the same row, producer and text are
    all absorbed, and what is left is the first command with the "after"
    snapshot of the last one: the "before" snapshot of the first edit, the
    first-redo mark and the controller are kept, and the snapshots in
    between are dropped. *)
Theorem UndoParameterCommand_absorb_run (others : list UndoParameterCommand) :
  ∀ this : UndoParameterCommand,
    Forall (same_edit this) others →
    UndoParameterCommand_absorb this others
    = match last others with
      | Some that => UndoParameterCommand_merged this that
      | None => this
      end.
Proof.
  induction others as [|that others IH]; intros this Hothers; [done|].
  apply Forall_cons in Hothers as [Hthat Hothers].
  unfold UndoParameterCommand_absorb. cbn [foldl].
  rewrite UndoParameterCommand_mergeWith_accept by done. cbn [snd].
  fold (UndoParameterCommand_absorb (UndoParameterCommand_merged this that) others).
  rewrite IH by exact Hothers. destruct others as [|other others]; [done|].
  change (last (that :: other :: others)) with (last (other :: others)).
  destruct (last (other :: others)) eqn:Hlast; [reflexivity | by apply last_None in Hlast].
Qed.

(** The two changes of the radius: the step goes from [1] to [3]. *)
Lemma UndoParameterCommand_absorb_run_witness :
  UndoParameterCommand_m_before
    (UndoParameterCommand_absorb demo_change [demo_change; demo_change_more])
    !! "radius" = Some "1"
  ∧ UndoParameterCommand_m_after
      (UndoParameterCommand_absorb demo_change [demo_change; demo_change_more])
      !! "radius" = Some "3".
Proof.
  rewrite (UndoParameterCommand_absorb_run [demo_change; demo_change_more] demo_change).
  - split; reflexivity.
  - repeat constructor.
Defined.

Lemma held_or_found_same_graph held uuid w w' :
  same_graph w w' → held_or_found held uuid w' = held_or_found held uuid w.
Proof.
  intros Hsame. unfold held_or_found. destruct (is_valid held); [done|].
  by apply findProducer_same_graph.
Qed.

Lemma AddCommand_redo_world_filters_ne p q this w :
  p ≠ q → filters (AddCommand_redo_world p this w) q = filters w q.
Proof.
  intros Hpq. unfold AddCommand_redo_world.
  transitivity (filters (run_steps p (add_steps p (AddCommand_pairs this)) w) q).
  { by destruct (AddType_eqb _ _). }
  by apply run_steps_filters_ne.
Qed.

Lemma AddCommand_merged_pairs this type row service :
  length (AddCommand_m_rows this) = length (AddCommand_m_services this) →
  AddCommand_pairs (AddCommand_merged this type row service)
  = AddCommand_pairs this ++ [(row, service)].
Proof.
  intros Hlen. unfold AddCommand_pairs.
  cbn [AddCommand_merged AddCommand_m_rows AddCommand_m_services].
  by rewrite zip_with_app.
Qed.

(** X9.  A merged set applies like its members.  Let an [AddSet] command
    absorb a set member with one row and one service, both on the producer
    [p].  [redo] of the merged command leaves every chain as [redo] of the
    first command followed by [redo] of the member does.  They differ in the
    adjustment pass of a member of mode [AddSetLast]: applied on its own it
    starts at the number of filters after the insertions of the first
    command, applied as part of the merged command at the number of filters
    before them. *)
Theorem AddCommand_merged_redo (this that : AddCommand) (w : World) (p : handle)
    (row : Z) (service : MltService) :
  length (AddCommand_m_rows this) = length (AddCommand_m_services this) →
  AddCommand_m_rows that = [row] →
  AddCommand_m_services that = [service] →
  AddCommand_m_type this = AddSet →
  AddCommand_m_type that = AddSet ∨ AddCommand_m_type that = AddSetLast →
  AddCommand_target this w = Some p →
  AddCommand_target that w = Some p →
  insertable (AddCommand_pairs this) (length (filters w p)) = true →
  ∃ merged w1 w2 wm,
    AddCommand_mergeWith this (Some (an_AddCommand that)) = (true, merged)
    ∧ AddCommand_redo this w = Done (AddCommand_released this) w1
    ∧ AddCommand_redo that w1 = Done (AddCommand_released that) w2
    ∧ AddCommand_redo merged w = Done (AddCommand_released merged) wm
    ∧ (∀ q, filters wm q = filters w2 q)
    ∧ adjusted_from (drop (length (calls w)) (calls w2))
      = (if AddType_eqb AddSetLast (AddCommand_m_type that)
         then [Z.of_nat (length (filters w p) + length (AddCommand_m_rows this))]
         else [])
    ∧ adjusted_from (drop (length (calls w)) (calls wm))
      = (if AddType_eqb AddSetLast (AddCommand_m_type that)
         then [Z.of_nat (length (filters w p))]
         else []).
Proof.
  intros Hlen Hrows Hservices Hthis Hthat Htarget Htarget' Hok.
  set (merged := AddCommand_merged this (AddCommand_m_type that) row service).
  set (w1 := AddCommand_redo_world p this w).
  set (w2 := AddCommand_redo_world p that w1).
  set (wm := AddCommand_redo_world p merged w).
  assert (same_graph w w1) as Hsame by apply AddCommand_redo_world_same_graph.
  assert (AddCommand_pairs that = [(row, service)]) as Hpairs'
    by (unfold AddCommand_pairs; by rewrite Hrows, Hservices).
  assert (AddCommand_pairs merged = AddCommand_pairs this ++ [(row, service)]) as Hpairs
    by (by apply AddCommand_merged_pairs).
  assert (AddType_eqb AddSetLast (AddCommand_m_type this) = false) as Hnotlast
    by (by rewrite Hthis).
  assert (length (filters w1 p)
          = (length (filters w p) + length (AddCommand_m_rows this))%nat) as Hcount.
  { unfold w1. rewrite AddCommand_redo_world_filters, insert_all_length by done.
    unfold AddCommand_pairs. rewrite length_zip. lia. }
  exists merged, w1, w2, wm. split.
  { rewrite AddCommand_mergeWith_accept by done. by rewrite Hrows, Hservices. }
  split; [by apply AddCommand_redo_resolved|]. split.
  { apply AddCommand_redo_resolved; [by rewrite Hrows, Hservices|].
    unfold AddCommand_target. by rewrite (held_or_found_same_graph _ _ w w1). }
  split.
  { apply AddCommand_redo_resolved; [|exact Htarget].
    simpl. rewrite !length_app. simpl. by rewrite Hlen. }
  split; [|split].
  - intros q. destruct (decide (p = q)) as [<- | Hpq].
    + unfold wm, w2, w1. rewrite !AddCommand_redo_world_filters, Hpairs, Hpairs'.
      unfold insert_all. by rewrite foldl_app.
    + unfold wm, w2, w1. by rewrite !AddCommand_redo_world_filters_ne.
  - unfold w2. rewrite AddCommand_redo_world_calls. unfold w1 at 1.
    rewrite AddCommand_redo_world_calls, Hnotlast, <- !app_assoc, drop_calls.
    fold w1. rewrite Hcount. unfold adjusted_from. rewrite !omap_app.
    fold (adjusted_from (add_calls p (AddCommand_pairs this))).
    fold (adjusted_from (add_calls p (AddCommand_pairs that))).
    rewrite !adjusted_from_add_calls.
    by destruct (AddType_eqb AddSetLast (AddCommand_m_type that)).
  - unfold wm. rewrite AddCommand_redo_world_calls, drop_calls.
    unfold adjusted_from. rewrite omap_app.
    fold (adjusted_from (add_calls p (AddCommand_pairs merged))).
    rewrite adjusted_from_add_calls.
    change (AddCommand_m_type merged) with (AddCommand_m_type that).
    by destruct (AddType_eqb AddSetLast (AddCommand_m_type that)).
Qed.

(** The set of two filters at the end of the clip [4]: applied one by one
    the pass starts at the last filter, index [4]; applied as the merged
    command it starts at index [3]. *)
Lemma AddCommand_merged_redo_witness :
  ∃ merged w1 w2 wm,
    AddCommand_mergeWith demo_add_set (Some (an_AddCommand demo_add_set_last)) = (true, merged)
    ∧ AddCommand_redo demo_add_set demo_world = Done (AddCommand_released demo_add_set) w1
    ∧ AddCommand_redo demo_add_set_last w1 = Done (AddCommand_released demo_add_set_last) w2
    ∧ AddCommand_redo merged demo_world = Done (AddCommand_released merged) wm
    ∧ filters wm 4%positive = filters w2 4%positive
    ∧ adjusted_from (calls w2) = [4]
    ∧ adjusted_from (calls wm) = [3].
Proof.
  destruct (AddCommand_merged_redo demo_add_set demo_add_set_last demo_world 4%positive 4
              (Some 21%positive))
    as (merged & w1 & w2 & wm & Hmerge & Hredo & Hredo' & Hredom & Hfilters & Hw2 & Hwm);
    [reflexivity | reflexivity | reflexivity | reflexivity | by right | reflexivity
    | reflexivity | reflexivity |].
  exists merged, w1, w2, wm. repeat split; try assumption. apply Hfilters.
Defined.

(** ** More of [UndoParameterCommand] *)

Lemma inherit_world_same_graph p row snapshot w : same_graph w (inherit_world p row snapshot w).
Proof. unfold inherit_world. by destruct (chain_get _ _); repeat split. Qed.

(** Writing the "before" snapshot over the "after" snapshot gives the
    properties back, when the former was taken from them and the latter
    names no other property. *)
Lemma before_over_after (before after ps : gmap string string) :
  before ⊆ ps → dom after ⊆ dom before → before ∪ (after ∪ ps) = ps.
Proof.
  intros Hbefore Hdom. apply map_eq. intros k.
  destruct (before !! k) as [v|] eqn:Hk.
  - rewrite (lookup_union_Some_l _ _ _ _ Hk). symmetry. by eapply lookup_weaken.
  - rewrite lookup_union_r by done. apply lookup_union_r.
    apply not_elem_of_dom. apply not_elem_of_dom in Hk. set_solver.
Qed.

(** X10.  Undoing a parameter change.  For an [UndoParameterCommand] with its
    controller, past its first [redo], whose target resolves to [p] with the
    filter [s] at its row: [redo] is idempotent on the properties of [s];
    and when the "before" snapshot was taken from the properties [s] has and
    the "after" snapshot names no property outside it, [redo] followed by
    [undo] leaves the properties of [s] as they were, and a further [redo]
    gives those of the first. *)
Theorem UndoParameterCommand_redo_then_undo (this : UndoParameterCommand) (w : World)
    (p s : handle) :
  UndoParameterCommand_m_firstRedo this = false →
  findProducer w (UndoParameterCommand_m_producerUuid this) = Some p →
  is_valid (UndoParameterCommand_m_filterController this) = true →
  chain_get (UndoParameterCommand_m_row this) (filters w p) = Some s →
  ∃ w1 w2 w3 w4 : World,
    UndoParameterCommand_redo this w = Done this w1
    ∧ UndoParameterCommand_redo this w1 = Done this w2
    ∧ properties w2 s = properties w1 s
    ∧ UndoParameterCommand_undo this w1 = Done this w3
    ∧ UndoParameterCommand_redo this w3 = Done this w4
    ∧ (UndoParameterCommand_m_before this ⊆ properties w s →
       dom (UndoParameterCommand_m_after this) ⊆ dom (UndoParameterCommand_m_before this) →
       properties w3 s = properties w s ∧ properties w4 s = properties w1 s).
Proof.
  intros Hfirst Hfind Hcontroller Hs.
  set (row := UndoParameterCommand_m_row this) in *.
  set (after := UndoParameterCommand_m_after this).
  set (before := UndoParameterCommand_m_before this).
  assert (∀ snapshot w0, same_graph w w0 → filters w0 = filters w →
            same_graph w (inherit_world p row snapshot w0)
            ∧ filters (inherit_world p row snapshot w0) = filters w
            ∧ properties (inherit_world p row snapshot w0) s = snapshot ∪ properties w0 s)
    as Hstep.
  { intros snapshot w0 Hsame Hfilters.
    assert (chain_get row (filters w0 p) = Some s) as Hs0 by (by rewrite Hfilters).
    split; [eapply same_graph_trans; [exact Hsame | apply inherit_world_same_graph]|].
    unfold inherit_world. rewrite Hs0. simpl. split; [done | apply fn_lookup_insert]. }
  assert (∀ w0, same_graph w w0 →
            UndoParameterCommand_redo this w0 = Done this (inherit_world p row after w0)
            ∧ UndoParameterCommand_undo this w0 = Done this (inherit_world p row before w0))
    as Hrun.
  { intros w0 Hsame. split.
    - rewrite (UndoParameterCommand_redo_resolved _ w0 p), Hcontroller; [done..|].
      by rewrite (findProducer_same_graph w w0).
    - rewrite (UndoParameterCommand_undo_resolved _ w0 p), Hcontroller; [done|].
      by rewrite (findProducer_same_graph w w0). }
  destruct (Hstep after w (same_graph_refl w) eq_refl) as (Hg1 & Hf1 & Hp1).
  set (w1 := inherit_world p row after w) in *.
  destruct (Hstep after w1 Hg1 Hf1) as (Hg2 & Hf2 & Hp2).
  destruct (Hstep before w1 Hg1 Hf1) as (Hg3 & Hf3 & Hp3).
  set (w2 := inherit_world p row after w1) in *.
  set (w3 := inherit_world p row before w1) in *.
  destruct (Hstep after w3 Hg3 Hf3) as (Hg4 & Hf4 & Hp4).
  set (w4 := inherit_world p row after w3) in *.
  exists w1, w2, w3, w4.
  split; [apply (Hrun w), same_graph_refl|]. split; [by apply (Hrun w1)|].
  split; [by rewrite Hp2, Hp1, (assoc_L (∪)), (idemp_L (∪))|].
  split; [by apply (Hrun w1)|]. split; [by apply (Hrun w3)|].
  intros Hbefore Hdom.
  assert (properties w3 s = properties w s) as Hback.
  { rewrite Hp3, Hp1. by apply before_over_after. }
  split; [exact Hback|]. by rewrite Hp4, Hback, <- Hp1.
Qed.

(** The radius of the filter [13] is [1]: the change to [2] and back. *)
Lemma UndoParameterCommand_redo_then_undo_witness :
  ∃ w1 w3 : World,
    UndoParameterCommand_redo demo_change demo_world_radius = Done demo_change w1
    ∧ UndoParameterCommand_undo demo_change w1 = Done demo_change w3
    ∧ properties w3 13%positive = properties demo_world_radius 13%positive.
Proof.
  destruct (UndoParameterCommand_redo_then_undo demo_change demo_world_radius
              4%positive 13%positive)
    as (w1 & w2 & w3 & w4 & Hredo & _ & _ & Hundo & _ & Hback);
    [reflexivity | reflexivity | reflexivity | reflexivity |].
  exists w1, w3. split; [exact Hredo|]. split; [exact Hundo|].
  apply Hback; [reflexivity | set_solver].
Defined.

(** X11.  [update] on a command as it was constructed, for the filter [s] at
    its row: in the world the command was constructed in it changes
    nothing; in a later world it sets the one property in the "after"
    snapshot to the value the filter has now, if it has one, and leaves the
    snapshot alone otherwise; it never touches another property of the
    "after" snapshot, the "before" snapshot or the first-redo mark. *)
Theorem UndoParameterCommand_update_captures (w w' : World) (producer : Producer)
    (uuid : QUuid) (name : QString) (controller : handle) (row : Z)
    (before : gmap string string) (desc propertyName : QString) (s : handle) :
  (p ← producer; chain_get row (filters w p)) = Some s →
  (p ← producer; chain_get row (filters w' p)) = Some s →
  UndoParameterCommand_update w producer
    (UndoParameterCommand_new w producer uuid name controller row before desc) propertyName
  = UndoParameterCommand_new w producer uuid name controller row before desc
  ∧ UndoParameterCommand_m_after
      (UndoParameterCommand_update w' producer
         (UndoParameterCommand_new w producer uuid name controller row before desc)
         propertyName)
    = match properties w' s !! propertyName with
      | Some value => <[propertyName := value]> (properties w s)
      | None => properties w s
      end
  ∧ UndoParameterCommand_m_before
      (UndoParameterCommand_update w' producer
         (UndoParameterCommand_new w producer uuid name controller row before desc)
         propertyName) = before
  ∧ UndoParameterCommand_m_firstRedo
      (UndoParameterCommand_update w' producer
         (UndoParameterCommand_new w producer uuid name controller row before desc)
         propertyName) = true.
Proof.
  intros Hs Hs'. unfold UndoParameterCommand_update, UndoParameterCommand_new, pass_property.
  cbn [UndoParameterCommand_m_row UndoParameterCommand_m_after UndoParameterCommand_m_before
       UndoParameterCommand_m_firstRedo].
  rewrite Hs, Hs'. cbn [service_properties]. rewrite !(right_id_L ∅ (∪)).
  split; [|done]. cbn.
  f_equal. case_match; [|reflexivity].
  by rewrite insert_id.
Qed.

(** The user drags the radius from [1] to [5] after the command was
    constructed: the "after" snapshot follows. *)
Lemma UndoParameterCommand_update_captures_witness :
  UndoParameterCommand_m_after demo_change_new !! "radius" = Some "1"
  ∧ UndoParameterCommand_m_after
      (UndoParameterCommand_update demo_world_dragged (Some 4%positive) demo_change_new
         "radius") !! "radius" = Some "5"
  ∧ UndoParameterCommand_m_before
      (UndoParameterCommand_update demo_world_dragged (Some 4%positive) demo_change_new
         "radius") !! "radius" = Some "0".
Proof.
  destruct (UndoParameterCommand_update_captures demo_world_radius demo_world_dragged
              (Some 4%positive) 42%N "Blur" 50%positive 2 {[ "radius" := "0" ]} EmptyString
              "radius" 13%positive) as (_ & Hafter & Hbefore & _);
    [reflexivity | reflexivity |].
  split; [reflexivity|]. fold demo_change_new in Hafter, Hbefore.
  rewrite Hafter, Hbefore. split; reflexivity.
Defined.

(** ** The identifier and the lookup *)

(** X12.  The lookup inverts the identifier: for a node [p] (clip, track,
    sub-timeline or chain) below one of the roots, when no other node below
    the roots carries the identifier of [p], [findProducer] on that
    identifier returns [p], whichever root holds it and wherever it sits
    there. *)
Theorem findProducer_unique_identifier (w : World) (root : Service)
    (t : mlt_service_type) (p : handle) :
  root ∈ roots w →
  (t, p) ∈ preorder root →
  is_node t = true →
  (∀ root' t' p', root' ∈ roots w → (t', p') ∈ preorder root' → is_node t' = true →
                  MLT_uuid w p' = MLT_uuid w p → p' = p) →
  findProducer w (MLT_uuid w p) = Some p.
Proof.
  intros Hroot Hp Ht Hunique. rewrite findProducer_locate. unfold locate.
  destruct (head (omap (locate_in w (MLT_uuid w p)) (roots w))) as [q|] eqn:Hhead.
  - apply head_omap_Some in Hhead as (earlier & x & later & Hroots & _ & Hx).
    unfold locate_in in Hx.
    destruct (find (is_match w (MLT_uuid w p)) (preorder x)) as [[t' q']|] eqn:Hfind;
      [|done].
    injection Hx as <-.
    apply find_Some_split in Hfind as (before & after & Hpre & _ & Hmatch).
    unfold is_match in Hmatch. apply andb_prop in Hmatch as [Hnode Huuid].
    apply N.eqb_eq in Huuid. f_equal.
    apply (Hunique x t'); [| |done|done].
    + rewrite Hroots. apply elem_of_app. right. apply list_elem_of_here.
    + rewrite Hpre. apply elem_of_app. right. apply list_elem_of_here.
  - apply head_omap_None in Hhead. rewrite Forall_forall in Hhead.
    specialize (Hhead root Hroot). unfold locate_in in Hhead.
    destruct (find (is_match w (MLT_uuid w p)) (preorder root)) eqn:Hfind; [done|].
    apply find_None_Forall in Hfind. rewrite Forall_forall in Hfind.
    specialize (Hfind (t, p) Hp). unfold is_match in Hfind. simpl in Hfind.
    by rewrite Ht, N.eqb_refl in Hfind.
Qed.

Lemma findProducer_unique_identifier_witness :
  findProducer demo_world (MLT_uuid demo_world 4%positive) = Some 4%positive.
Proof.
  apply (findProducer_unique_identifier demo_world demo_timeline mlt_service_producer_type).
  - apply list_elem_of_here.
  - cbn. repeat (apply list_elem_of_here || apply list_elem_of_further).
  - reflexivity.
  - intros root' t' p' Hroot' Hp' _. vm_compute in Hroot'.
    repeat (apply elem_of_cons in Hroot' as [-> | Hroot']);
      [..| by apply elem_of_nil in Hroot'];
      vm_compute in Hp';
      repeat (apply elem_of_cons in Hp' as [[= -> ->] | Hp']);
      try (by apply elem_of_nil in Hp'); by vm_compute.
Defined.

